(** * audio_splitter.py: a shallow embedding of [split_audio_by_size] and [main]

    The script is one linear procedure that drives two external tools
    (ffprobe, ffmpeg) and touches the file system.  The embedding keeps
    the control flow of the source (try / except / finally, early returns)
    in a state-and-exception monad over an explicit world:

    - Python [float] is IEEE binary64, taken from the Standard Library's
      [SpecFloat] (no axioms, computes);
    - the file system is a finite map from [pathlib] paths to nodes;
    - what is outside the repository (the PATH lookup, the [float]
      constructor, the two tools, the progress bar, the Unicode database)
      is a record of functions, [Env];
    - every observable action is appended to a trace of events. *)

From Stdlib Require Import ZArith Lia Bool List Ascii String DecimalString SpecFloat.
From stdpp Require Import base option list gmap strings sorting.

Local Open Scope Z_scope.

(** ** Python floats *)

Module PyFloat.

Definition prec : Z := 53.
Definition emax : Z := 1024.

Definition float : Type := spec_float.

Definition is_zero (x : float) : bool :=
  match x with S754_zero _ => true | _ => false end.

Definition is_finite (x : float) : bool :=
  match x with S754_zero _ | S754_finite _ _ _ => true | _ => false end.

(** [x > 0.0] *)
Definition is_positive (x : float) : bool :=
  match x with
  | S754_finite false _ _ | S754_infinity false => true
  | _ => false
  end.

Definition mul (x y : float) : float := SFmul prec emax x y.
Definition div (x y : float) : float := SFdiv prec emax x y.
Definition add (x y : float) : float := SFadd prec emax x y.
Definition sub (x y : float) : float := SFsub prec emax x y.

(** [x < y]: false when one of them is a NaN. *)
Definition ltb (x y : float) : bool := SFltb x y.

(** The double nearest to the integer [n] (round half to even);
    an infinity when [n] is out of range. *)
Definition of_Z (n : Z) : float := binary_normalize prec emax n 0 false.

(** The integer part towards minus infinity of a finite double:
    [m * 2^e] floored, [Z.shiftl] by a negative amount being the
    flooring shift to the right. *)
Definition floor_finite (s : bool) (m : positive) (e : Z) : Z :=
  Z.shiftl (cond_Zopp s (Zpos m)) e.

Definition f1024 : float := of_Z 1024.

(** [x] is a number (not a NaN) of sign [s]. *)
Definition has_sign (s : bool) (x : float) : Prop :=
  match x with
  | S754_zero s' | S754_infinity s' | S754_finite s' _ _ => s' = s
  | S754_nan => False
  end.

End PyFloat.

Import PyFloat.

(** ** pathlib paths (POSIX flavour)

    A path is its root and its components; [Path_of] drops empty and
    ["."] components as [pathlib] does, and keeps a root of exactly two
    slashes apart from the root of one. *)

Inductive Root := NoRoot | Slash | TwoSlashes.

Definition root_str (r : Root) : string :=
  match r with
  | NoRoot => ""
  | Slash => "/"
  | TwoSlashes => "//"
  end.

Record Path := mkPath { root : Root; parts : list string }.

Global Instance Root_eq_dec : EqDecision Root.
Proof. solve_decision. Defined.

Global Instance Root_countable : Countable Root.
Proof.
  refine (inj_countable'
            (fun r => match r with NoRoot => 0%nat | Slash => 1%nat
                               | TwoSlashes => 2%nat end)
            (fun n => match n with 0%nat => NoRoot | 1%nat => Slash
                               | _ => TwoSlashes end) _).
  by intros [].
Defined.

Global Instance Path_eq_dec : EqDecision Path.
Proof. solve_decision. Defined.

Global Instance Path_countable : Countable Path.
Proof.
  refine (inj_countable' (fun p => (root p, parts p))
                         (fun bp => mkPath bp.1 bp.2) _).
  by intros [].
Defined.

Definition slash : ascii := "/"%char.
Definition dot : ascii := "."%char.

(** [s.split("/")] *)
Fixpoint split_slash (cur : string) (s : string) : list string :=
  match s with
  | EmptyString => [String.rev cur]
  | String c s' =>
      if Ascii.eqb c slash then String.rev cur :: split_slash EmptyString s'
      else split_slash (String c cur) s'
  end.

Definition is_component (c : string) : bool :=
  negb (String.eqb c "" || String.eqb c ".").

(** The root of [s]: two leading slashes are a root of their own, three
    or more are one slash. *)
Definition root_of (s : string) : Root :=
  if String.prefix "//" s && negb (String.prefix "///" s) then TwoSlashes
  else if String.prefix "/" s then Slash
  else NoRoot.

(** [Path(s)] *)
Definition Path_of (s : string) : Path :=
  mkPath (root_of s) (List.filter is_component (split_slash EmptyString s)).

Fixpoint join_slash (l : list string) : string :=
  match l with
  | [] => ""
  | [c] => c
  | c :: l' => c +:+ "/" +:+ join_slash l'
  end.

(** [str(p)] *)
Definition path_str (p : Path) : string :=
  match parts p with
  | [] => match root p with NoRoot => "." | r => root_str r end
  | l => root_str (root p) +:+ join_slash l
  end.

(** [p.parent] *)
Definition path_parent (p : Path) : Path :=
  mkPath (root p) (removelast (parts p)).

(** [p.name] *)
Definition path_name (p : Path) : string := List.last (parts p) "".

(** Index of the last ["."] of a name, as [name.rfind('.')]. *)
Fixpoint rfind_dot (i : nat) (s : string) : option nat :=
  match s with
  | EmptyString => None
  | String c s' =>
      match rfind_dot (S i) s' with
      | Some j => Some j
      | None => if Ascii.eqb c dot then Some i else None
      end
  end.

(** [p.stem]: the name without its last suffix; a leading or a trailing
    dot starts no suffix ([0 < i < len(name) - 1]). *)
Definition path_stem (p : Path) : string :=
  let name := path_name p in
  match rfind_dot 0 name with
  | Some i =>
      if (0 <? i)%nat && (S i <? String.length name)%nat
      then String.substring 0 i name else name
  | None => name
  end.

(** [p / name] for a single component [name]. *)
Definition path_join (p : Path) (name : string) : Path :=
  mkPath (root p) (parts p ++ [name]).

Infix "//" := path_join (at level 40, left associativity).

(** ** Exceptions, messages and events *)

(** A captured output stream of a child process: a [str] in text mode, a
    [bytes] object otherwise.  The bytes are given by their UTF-8
    decoding, [None] when they are not valid UTF-8. *)
Inductive Captured :=
| Str (s : string)
| Bytes (utf8 : option string).

(** Truth value of a captured stream: empty is false. *)
Definition truthy (c : Captured) : bool :=
  match c with
  | Str s | Bytes (Some s) => negb (String.eqb s "")
  | Bytes None => true
  end.

(** The attributes of a [subprocess.CalledProcessError]. *)
Record CalledProcess := mkCalledProcess
  { cp_returncode : Z; cp_cmd : list string; cp_stderr : Captured }.

(** The f-strings that become exception messages, by source line. *)
Inductive Msg :=
| MsgToolsMissing                                     (* line 29 *)
| MsgFileNotFound (input_file : string)               (* line 33 *)
| MsgDurationError (detail : Captured + CalledProcess) (* line 52, [e.stderr or e] *)
| MsgAnalysisError (stderr : string)                  (* line 88 *)
| MsgFfmpegExit (returncode : Z)                      (* line 136 *)
| MsgNoSuchFile (p : Path).                           (* raised by the OS *)

Inductive Exn :=
| RuntimeError (m : Msg)
| FileNotFoundError (m : Msg)
| FileExistsError (p : Path)
| IsADirectoryError (p : Path)
| CalledProcessError (cp : CalledProcess)
| ValueError
| UnicodeDecodeError
| AttributeError
| ZeroDivisionError
| OverflowError
| TqdmError (cls : string)   (* an [Exception] of the progress bar, by its class *)
| SystemExit (code : Z).

(** [isinstance(e, ValueError)]: [UnicodeDecodeError] is a subclass. *)
Definition is_ValueError (e : Exn) : bool :=
  match e with ValueError | UnicodeDecodeError => true | _ => false end.

(** [isinstance(e, Exception)]: everything here but [SystemExit]. *)
Definition is_Exception (e : Exn) : bool :=
  match e with SystemExit _ => false | _ => true end.

Inductive Stream := Stdout | Stderr.

(** What the script prints, by source line. *)
Inductive Text :=
| TOutputDir (output_dir : Path)        (* line 38 *)
| TAnalysing                            (* line 59 *)
| TAnalysed (segment_duration : Z)      (* line 85 *)
| TSplitting                            (* line 110 *)
| TSplitFailed (e : Exn)                (* line 139, on stderr *)
| TSplitDone (n : nat)                  (* line 144 *)
| TListHeader                           (* line 171 *)
| TListItem (f : string)                (* line 173 *)
| TCritical (e : Exn).                  (* line 175, on stderr *)

(** What a run of an external tool gave back. *)

(** One run of [ffprobe] in text mode: [pr_decodes] tells whether the
    bytes it wrote on its two streams are valid in the encoding of the
    locale; [pr_stdout] and [pr_stderr] are what they decode to. *)
Record ProbeResult := mkProbe
  { pr_returncode : Z; pr_stdout : string; pr_stderr : string;
    pr_decodes : bool }.

(** One run of [ffmpeg] to a single output file: [er_written] is the
    size of what it left at the output path, if anything; [er_stderr] is
    the UTF-8 decoding of the captured bytes. *)
Record EncodeResult := mkEncode
  { er_returncode : Z; er_stderr : option string; er_written : option N }.

(** A [str] read from a pipe, as its code points. *)
Definition UStr : Type := list N.

(** One run of [ffmpeg -f segment]: the lines that the iteration over its
    stderr yields, the segments it left, by index and size, and whether
    the read that follows the last line hits bytes that are not UTF-8
    (the iteration then ends on a [UnicodeDecodeError], not on the end of
    the stream). *)
Record SegmentResult := mkSegment
  { sr_returncode : Z; sr_stderr : list UStr; sr_written : list (nat * N);
    sr_undecodable : bool }.

(** The calls made to the progress bar. *)
Inductive BarCall :=
| BarOpen (total : float)   (* line 116, [tqdm(total=total_duration, ...)] *)
| BarUpdate (n : float)     (* lines 124 and 129, [pbar.update(n)] *)
| BarClose.                 (* the end of the [with] block *)

(** The observable actions, each with what it answered. *)
Inductive Event :=
| EWhich (cmd : string) (found : bool)
| EIsFile (p : Path) (answer : bool)
| EMkdir (p : Path)
| EStat (p : Path) (size : option N)
| EExists (p : Path) (answer : bool)
| EUnlink (p : Path)
| EGlob (dir : Path) (pattern : string) (found : list Path)
| ERunProbe (argv : list string) (r : ProbeResult)
| ERunEncode (argv : list string) (r : EncodeResult)
| EPopen (argv : list string) (r : SegmentResult)
| EBar (call : BarCall) (raised : option string)
| EPrint (s : Stream) (t : Text).

(** ** The world: a file system and the trace of what happened *)

Record Node := mkNode { is_dir : bool; st_size : N }.

Definition regular (size : N) : Node := mkNode false size.
Definition directory : Node := mkNode true 4096.

Record World := mkWorld { fs : gmap Path Node; trace : list Event }.

Definition Result (A : Type) : Type := Exn + A.

(** Computations: they read and change the world, and return or raise. *)
Definition M (A : Type) : Type := World -> Result A * World.

Definition ret {A} (a : A) : M A := fun w => (inr a, w).
Definition raise {A} (e : Exn) : M A := fun w => (inl e, w).

Definition bind {A B} (c : M A) (k : A -> M B) : M B :=
  fun w =>
    match c w with
    | (inr a, w1) => k a w1
    | (inl e, w1) => (inl e, w1)
    end.

Notation "'let*' x ':=' c 'in' k" := (bind c (fun x => k))
  (at level 10, x name, c at level 100, k at level 200).
Notation "c ';;' k" := (bind c (fun _ => k))
  (at level 100, k at level 200, right associativity).

(** [try: body except ...: handler]: [handler e] is [None] when no
    [except] clause matches [e]. *)
Definition try_except {A} (body : M A) (handler : Exn -> option (M A)) : M A :=
  fun w =>
    match body w with
    | (inr a, w1) => (inr a, w1)
    | (inl e, w1) =>
        match handler e with
        | Some h => h w1
        | None => (inl e, w1)
        end
    end.

(** [try: body finally: fin]: [fin] always runs; an exception of [fin]
    replaces the outcome of [body]. *)
Definition try_finally {A} (body : M A) (fin : M unit) : M A :=
  fun w =>
    match body w with
    | (r, w1) =>
        match fin w1 with
        | (inr _, w2) => (r, w2)
        | (inl e, w2) => (inl e, w2)
        end
    end.

Definition lift {A} (r : Result A) : M A := fun w => (r, w).

(** Sequencing of pure steps that can raise. *)
Definition and_then {A B} (r : Result A) (k : A -> Result B) : Result B :=
  match r with
  | inl e => inl e
  | inr a => k a
  end.

Notation "'let?' x ':=' r 'in' k" := (and_then r (fun x => k))
  (at level 10, x name, r at level 100, k at level 200).

Definition log (e : Event) : M unit :=
  fun w => (inr tt, mkWorld (fs w) (trace w ++ [e])).

Definition print (s : Stream) (t : Text) : M unit := log (EPrint s t).

Definition get_fs : M (gmap Path Node) := fun w => (inr (fs w), w).

Definition get_trace : M (list Event) := fun w => (inr (trace w), w).

Definition set_fs (f : gmap Path Node) : M unit :=
  fun w => (inr tt, mkWorld f (trace w)).

(** ** File-system calls of [pathlib] *)

Definition is_regular (o : option Node) : bool :=
  match o with
  | Some n => negb (is_dir n)
  | None => false
  end.

(** [p.is_file()] *)
Definition is_file (p : Path) : M bool :=
  let* f := get_fs in
  log (EIsFile p (is_regular (f !! p)));;
  ret (is_regular (f !! p)).

(** [p.mkdir(exist_ok=True)] *)
Definition mkdir_exist_ok (p : Path) : M unit :=
  log (EMkdir p);;
  let* f := get_fs in
  match f !! p with
  | None => set_fs (<[p := directory]> f)
  | Some n => if is_dir n then ret tt else raise (FileExistsError p)
  end.

(** [p.stat().st_size] *)
Definition stat_size (p : Path) : M N :=
  let* f := get_fs in
  log (EStat p (st_size <$> f !! p));;
  match f !! p with
  | Some n => ret (st_size n)
  | None => raise (FileNotFoundError (MsgNoSuchFile p))
  end.

(** [p.exists()] *)
Definition exists_ (p : Path) : M bool :=
  let* f := get_fs in
  log (EExists p (bool_decide (is_Some (f !! p))));;
  ret (bool_decide (is_Some (f !! p))).

(** [p.unlink()] *)
Definition unlink (p : Path) : M unit :=
  log (EUnlink p);;
  let* f := get_fs in
  match f !! p with
  | Some n => if is_dir n then raise (IsADirectoryError p) else set_fs (delete p f)
  | None => raise (FileNotFoundError (MsgNoSuchFile p))
  end.

(** Shell-style matching of a name against a pattern made of literal
    characters and [*]. *)
Fixpoint fnmatch (pat : string) : string -> bool :=
  match pat with
  | EmptyString => fun s => String.eqb s ""
  | String c pat' =>
      if Ascii.eqb c "*"%char then
        fix star (s : string) : bool :=
          fnmatch pat' s ||
          match s with EmptyString => false | String _ s' => star s' end
      else
        fun s =>
          match s with
          | EmptyString => false
          | String d s' => Ascii.eqb c d && fnmatch pat' s'
          end
  end.

(** The name under which [p] is an entry of the directory [dir]. *)
Definition entry_of (dir p : Path) : option string :=
  match parts p with
  | [] => None
  | _ => if bool_decide (path_parent p = dir) then Some (path_name p) else None
  end.

Definition glob_match (dir : Path) (pattern : string) (p : Path) : bool :=
  match entry_of dir p with
  | Some name => fnmatch pattern name
  | None => false
  end.

(** [dir.glob(pattern)]: the entries of [dir] that match, in the order
    the directory scan yields them. *)
Definition glob (dir : Path) (pattern : string) : M (list Path) :=
  let* f := get_fs in
  let found := List.filter (glob_match dir pattern) (map fst (map_to_list f)) in
  log (EGlob dir pattern found);;
  ret found.

(** [sorted(l)] on strings: a stable merge sort by code units. *)
Definition sorted (l : list string) : list string := merge_sort String.le l.

(** ** Builtins used by the script *)

(** [str.isspace] on ASCII. *)
Definition py_isspace (c : ascii) : bool :=
  let n := nat_of_ascii c in
  ((9 <=? n) && (n <=? 13) || (28 <=? n) && (n <=? 32))%nat.

Fixpoint lstrip (s : string) : string :=
  match s with
  | EmptyString => EmptyString
  | String c s' => if py_isspace c then lstrip s' else s
  end.

(** [s.strip()] *)
Definition strip (s : string) : string :=
  String.rev (lstrip (String.rev (lstrip s))).

(** [str(n)] for an [int]. *)
Definition str_int (n : Z) : string := NilZero.string_of_int (Z.to_int n).

(** [x / y] on floats: Python raises on a zero divisor (of either sign)
    where IEEE would return an infinity or a NaN. *)
Definition truediv (x y : float) : Result float :=
  if is_zero y then inl ZeroDivisionError else inr (div x y).

(** The conversion of an [int] operand to [float] in mixed arithmetic:
    the nearest double, or [OverflowError] when there is none. *)
Definition float_of_int (n : Z) : Result float :=
  match of_Z n with
  | S754_infinity _ => inl OverflowError
  | x => inr x
  end.

(** [math.floor(x)]: an exact [int]. *)
Definition math_floor (x : float) : Result Z :=
  match x with
  | S754_nan => inl ValueError
  | S754_infinity _ => inl OverflowError
  | S754_zero _ => inr 0
  | S754_finite s m e => inr (floor_finite s m e)
  end.

(** ** The environment: what the script calls outside the repository *)

Record Env := mkEnv
  { which : string -> bool;                 (* [shutil.which(cmd)] finds it *)
    float_of_str : string -> option float;  (* [float(s)], [None]: ValueError *)
    ffprobe : list string -> gmap Path Node -> ProbeResult;
    ffmpeg : list string -> gmap Path Node -> EncodeResult;
    ffmpeg_segment : list string -> gmap Path Node -> SegmentResult;
    (* the progress bar: the class of what a call raises, if it raises,
       given the calls made before it *)
    tqdm : list BarCall -> BarCall -> option string;
    (* the Unicode database: the code points beyond ASCII of decimal
       value 0, each the first of ten consecutive digits *)
    decimal_zeros : list N }.

Definition shutil_which (env : Env) (cmd : string) : M bool :=
  log (EWhich cmd (which env cmd));; ret (which env cmd).

(** [float(s)] *)
Definition py_float (env : Env) (s : string) : Result float :=
  match float_of_str env s with
  | Some x => inr x
  | None => inl ValueError
  end.

(** [subprocess.run(argv, capture_output=True, text=True, check=True)]:
    the two streams are decoded as they are collected, before the exit
    code is looked at. *)
Definition run_ffprobe (env : Env) (argv : list string) : M ProbeResult :=
  let* f := get_fs in
  let r := ffprobe env argv f in
  log (ERunProbe argv r);;
  if negb (pr_decodes r) then raise UnicodeDecodeError
  else if pr_returncode r =? 0 then ret r
  else raise (CalledProcessError
                (mkCalledProcess (pr_returncode r) argv (Str (pr_stderr r)))).

(** [subprocess.run(argv, check=True, capture_output=True)], [out] being
    the output path that ends [argv]. *)
Definition run_ffmpeg (env : Env) (argv : list string) (out : Path) : M unit :=
  let* f := get_fs in
  let r := ffmpeg env argv f in
  log (ERunEncode argv r);;
  match er_written r with
  | Some size => set_fs (<[out := regular size]> f)
  | None => ret tt
  end;;
  if er_returncode r =? 0 then ret tt
  else raise (CalledProcessError
                (mkCalledProcess (er_returncode r) argv (Bytes (er_stderr r)))).

(** [%03d]: decimal, padded with zeros to three digits at least. *)
Definition format_03d (n : nat) : string :=
  let s := NilZero.string_of_uint (Nat.to_uint n) in
  match String.length s with
  | 1%nat => "00" +:+ s
  | 2%nat => "0" +:+ s
  | _ => s
  end.

(** The file name [part_%03d.flac] expands to for segment [i]. *)
Definition segment_name (i : nat) : string := "part_" +:+ format_03d i +:+ ".flac".

Definition write_segments (dir : Path) (l : list (nat * N))
    (f : gmap Path Node) : gmap Path Node :=
  fold_left (fun acc s => <[dir // segment_name s.1 := regular s.2]> acc) l f.

(** [subprocess.Popen(argv, stderr=PIPE, ..., text=True,
    encoding='utf-8')]: the process, with what it is going to write.
    [dir] is the directory of the output pattern that ends [argv]. *)
Definition popen_ffmpeg (env : Env) (argv : list string) (dir : Path)
    : M SegmentResult :=
  let* f := get_fs in
  let r := ffmpeg_segment env argv f in
  log (EPopen argv r);;
  set_fs (write_segments dir (sr_written r) f);;
  ret r.

(** ** The progress markers (lines 120-123)

    The loop over the encoder's stderr looks in each line for
    [time=(\d{2}):(\d{2}):(\d{2})\.(\d{2})] and turns the four groups
    into integers.  The pattern is a sequence of literal characters and
    digit classes, so a match at a position is a single left-to-right
    scan.  On a [str], [\d] is any decimal digit of the Unicode database
    and [int] reads them all. *)

Inductive Atom :=
| Lit (c : N)   (* this character *)
| Digit.        (* [\d] *)

(** The decimal value of a character, if it is a decimal digit. *)
Definition digit_value (zeros : list N) (c : N) : option nat :=
  if (c <? 128)%N then
    if ((48 <=? c) && (c <=? 57))%N then Some (N.to_nat (c - 48)) else None
  else
    match List.find (fun z => ((z <=? c) && (c <? z + 10))%N) zeros with
    | Some z => Some (N.to_nat (c - z))
    | None => None
    end.

(** The atom matches the character. *)
Definition accepts (zeros : list N) (a : Atom) (c : N) : bool :=
  match a with
  | Lit l => (c =? l)%N
  | Digit => bool_decide (is_Some (digit_value zeros c))
  end.

Definition code (c : ascii) : N := N_of_ascii c.

Definition time_pattern : list Atom :=
  [Lit (code "t"); Lit (code "i"); Lit (code "m"); Lit (code "e");
   Lit (code "="); Digit; Digit; Lit (code ":"); Digit; Digit;
   Lit (code ":"); Digit; Digit; Lit (code "."); Digit; Digit].

(** A match of [pat] at the start of [s]: the digits it read. *)
Fixpoint match_atoms (zeros : list N) (pat : list Atom) (s : UStr)
    : option (list nat) :=
  match pat with
  | [] => Some []
  | a :: pat' =>
      match s with
      | [] => None
      | c :: s' =>
          match a with
          | Lit l => if (c =? l)%N then match_atoms zeros pat' s' else None
          | Digit =>
              match digit_value zeros c with
              | Some d => cons d <$> match_atoms zeros pat' s'
              | None => None
              end
          end
      end
  end.

(** [re.search(pattern, line)]: the leftmost match. *)
Fixpoint search_time (zeros : list N) (line : UStr) : option (list nat) :=
  match match_atoms zeros time_pattern line with
  | Some ds => Some ds
  | None =>
      match line with
      | [] => None
      | _ :: rest => search_time zeros rest
      end
  end.

(** [h, m, s, ms = map(int, match.groups())] *)
Definition groups (ds : list nat) : option (nat * nat * nat * nat) :=
  match ds with
  | [h1; h0; m1; m0; s1; s0; c1; c0] =>
      Some (10 * h1 + h0, 10 * m1 + m0, 10 * s1 + s0, 10 * c1 + c0)%nat
  | _ => None
  end.

(** Lines 120-122 on one line of the encoder's stderr. *)
Definition progress_time (zeros : list N) (line : UStr)
    : option (nat * nat * nat * nat) :=
  match search_time zeros line with
  | Some ds => groups ds
  | None => None
  end.

(** Line 123: [h * 3600 + m * 60 + s + ms / 100], an [int] plus the
    [float] of the true division. *)
Definition current_time_of (h m s ms : nat) : float :=
  add (of_Z (Z.of_nat (h * 3600 + m * 60 + s)))
      (div (of_Z (Z.of_nat ms)) (of_Z 100)).

(** ** The progress bar (lines 116-129) *)

(** The calls made to the bar so far. *)
Definition bar_calls (t : list Event) : list BarCall :=
  omap (fun e => match e with EBar call _ => Some call | _ => None end) t.

(** One call to the bar: it displays what it is told, or raises. *)
Definition bar (env : Env) (call : BarCall) : M unit :=
  let* t := get_trace in
  let raised := tqdm env (bar_calls t) call in
  log (EBar call raised);;
  match raised with
  | Some cls => raise (TqdmError cls)
  | None => ret tt
  end.

(** Lines 117-125: the lines read from the encoder, one update of the bar
    for each line with a marker.  The result is [pbar.n], the counter of
    the bar, which [update] increments by its argument. *)
Fixpoint read_progress (env : Env) (lines : list UStr)
    (previous_time n : float) : M float :=
  match lines with
  | [] => ret n
  | line :: rest =>
      match progress_time (decimal_zeros env) line with
      | Some (h, m, s, ms) =>
          let current_time := current_time_of h m s ms in
          bar env (BarUpdate (sub current_time previous_time));;
          read_progress env rest current_time
            (add n (sub current_time previous_time))
      | None => read_progress env rest previous_time n
      end
  end.

(** Lines 116-129: the [with] block.  The bar is closed on every way out
    of the block, and what the closing raises replaces what the block
    raised. *)
Definition progress (env : Env) (total_duration : float)
    (process : SegmentResult) : M unit :=
  bar env (BarOpen total_duration);;
  try_finally
    (let* n := read_progress env (sr_stderr process) (of_Z 0) (of_Z 0) in
     (if sr_undecodable process then raise UnicodeDecodeError else ret tt);;
     if ltb n total_duration then bar env (BarUpdate (sub total_duration n))
     else ret tt)
    (bar env BarClose).

(** ** [split_audio_by_size] *)

Definition duration_cmd (source_path : Path) : list string :=
  ["ffprobe"; "-v"; "error"; "-show_entries"; "format=duration";
   "-of"; "default=noprint_wrappers=1:nokey=1"; path_str source_path].

Definition analyze_cmd (source_path temp_flac_path : Path) : list string :=
  ["ffmpeg"; "-y"; "-i"; path_str source_path; "-map"; "0:a"; "-ac"; "1";
   "-ar"; "16000"; "-c:a"; "flac"; path_str temp_flac_path].

Definition split_cmd (source_path : Path) (segment_duration : Z)
    (output_pattern : Path) : list string :=
  ["ffmpeg"; "-i"; path_str source_path; "-map"; "0:a"; "-ac"; "1";
   "-ar"; "16000"; "-c:a"; "flac"; "-f"; "segment";
   "-segment_time"; str_int segment_duration; "-reset_timestamps"; "1";
   path_str output_pattern].

(** Line 28: [not which("ffmpeg") or not which("ffprobe")]; the second
    lookup is skipped when the first one fails. *)
Definition tools_missing (env : Env) : M bool :=
  let* ffmpeg_found := shutil_which env "ffmpeg" in
  if negb ffmpeg_found then ret true
  else
    let* ffprobe_found := shutil_which env "ffprobe" in
    ret (negb ffprobe_found).

(** Lines 41-52.  The handler formats [e.stderr or e]: a
    [CalledProcessError] has the attribute, a [ValueError] has not, and
    reading it raises [AttributeError] in place of the [RuntimeError]. *)
Definition probe_duration (env : Env) (source_path : Path) : M float :=
  try_except
    (let* result := run_ffprobe env (duration_cmd source_path) in
     lift (py_float env (strip (pr_stdout result))))
    (fun e =>
       match e with
       | CalledProcessError cp =>
           Some (raise (RuntimeError
                          (MsgDurationError
                             (if truthy (cp_stderr cp) then inl (cp_stderr cp)
                              else inr cp))))
       | _ =>
           if is_ValueError e then Some (raise AttributeError) else None
       end).

Definition fallback_segment_duration : Z := 60.

(** Lines 79-83: the segment duration from the chunk size and the
    calibration ratio. *)
Definition segment_duration_for (chunk_size_mb bytes_per_second : float)
    : Result Z :=
  let chunk_size_bytes := mul (mul chunk_size_mb f1024) f1024 in
  let? q := truediv chunk_size_bytes bytes_per_second in
  let? segment_duration := math_floor q in
  inr (if segment_duration <=? 0 then fallback_segment_duration
       else segment_duration).

(** Lines 78-83, from the size of the calibration file on. *)
Definition compute_segment_duration (temp_file_size_bytes : Z)
    (total_duration chunk_size_mb : float) : Result Z :=
  let? size := float_of_int temp_file_size_bytes in
  let? bytes_per_second := truediv size total_duration in
  segment_duration_for chunk_size_mb bytes_per_second.

(** [e.stderr.decode('utf-8')] *)
Definition decode_utf8 (c : Captured) : Result string :=
  match c with
  | Bytes (Some s) => inr s
  | Bytes None => inl UnicodeDecodeError
  | Str _ => inl AttributeError
  end.

(** Lines 60-92: the calibration encode, inside [try / except / finally]. *)
Definition analyse (env : Env) (source_path temp_flac_path : Path)
    (chunk_size_mb total_duration : float) : M Z :=
  try_finally
    (try_except
       (run_ffmpeg env (analyze_cmd source_path temp_flac_path) temp_flac_path;;
        let* temp_file_size_bytes := stat_size temp_flac_path in
        let* segment_duration :=
          lift (compute_segment_duration (Z.of_N temp_file_size_bytes)
                  total_duration chunk_size_mb) in
        print Stdout (TAnalysed segment_duration);;
        ret segment_duration)
       (fun e =>
          match e with
          | CalledProcessError cp =>
              Some (let* text := lift (decode_utf8 (cp_stderr cp)) in
                    raise (RuntimeError (MsgAnalysisError text)))
          | _ => None
          end))
    (let* present := exists_ temp_flac_path in
     if present then unlink temp_flac_path else ret tt).

(** Lines 111-140: the segmenting encode, its progress, [process.wait()]
    and the test of the exit code, all inside the [try].  The result is
    [Some l] when the function returns [l] from inside the handler. *)
Definition segment (env : Env) (source_path output_dir : Path)
    (total_duration : float) (segment_duration : Z)
    : M (option (list string)) :=
  try_except
    (let* process :=
       popen_ffmpeg env
         (split_cmd source_path segment_duration (output_dir // "part_%03d.flac"))
         output_dir in
     progress env total_duration process;;
     if negb (sr_returncode process =? 0)
     then raise (RuntimeError (MsgFfmpegExit (sr_returncode process)))
     else ret None)
    (fun e =>
       if is_Exception e
       then Some (print Stderr (TSplitFailed e);; ret (Some []))
       else None).

(** Line 36 and line 57. *)
Definition output_dir_of (source_path : Path) : Path :=
  path_parent source_path // (path_stem source_path +:+ "_chunks").

Definition temp_flac_path_of (source_path : Path) : Path :=
  output_dir_of source_path // ("temp_" +:+ path_stem source_path +:+ ".flac").

Definition split_audio_by_size (env : Env) (input_file : string)
    (chunk_size_mb : float) : M (list string) :=
  let* missing := tools_missing env in
  if missing then raise (RuntimeError MsgToolsMissing)
  else
    let source_path := Path_of input_file in
    let* source_is_file := is_file source_path in
    if negb source_is_file
    then raise (FileNotFoundError (MsgFileNotFound input_file))
    else
      let output_dir := output_dir_of source_path in
      mkdir_exist_ok output_dir;;
      print Stdout (TOutputDir output_dir);;
      let* total_duration := probe_duration env source_path in
      let temp_flac_path := temp_flac_path_of source_path in
      print Stdout TAnalysing;;
      let* segment_duration :=
        analyse env source_path temp_flac_path chunk_size_mb total_duration in
      print Stdout TSplitting;;
      let* returned :=
        segment env source_path output_dir total_duration segment_duration in
      match returned with
      | Some early => ret early
      | None =>
          let* found := glob output_dir "part_*.flac" in
          let chunk_files := sorted (map path_str found) in
          print Stdout (TSplitDone (length chunk_files));;
          ret chunk_files
      end.

(** ** [main], after [parser.parse_args()] *)

Fixpoint print_files (l : list string) : M unit :=
  match l with
  | [] => ret tt
  | f :: l' => print Stdout (TListItem f);; print_files l'
  end.

Definition main (env : Env) (input_file : string) (size : float) : M unit :=
  try_except
    (let* created_files := split_audio_by_size env input_file size in
     match created_files with
     | [] => ret tt
     | _ => print Stdout TListHeader;; print_files created_files
     end)
    (fun e =>
       match e with
       | FileNotFoundError _ | RuntimeError _ =>
           Some (print Stderr (TCritical e);; raise (SystemExit 1))
       | _ => None
       end).

(** The exit status of the interpreter: 0 when [main] returns, the code
    of a [SystemExit], 1 after any other uncaught exception. *)
Definition exit_status (r : Result unit) : Z :=
  match r with
  | inr _ => 0
  | inl (SystemExit code) => code
  | inl _ => 1
  end.

(** ** A concrete environment, to run the script on *)

Module Run.

Definition digit (c : ascii) : option Z :=
  let n := Z.of_nat (nat_of_ascii c) in
  if (48 <=? n) && (n <=? 57) then Some (n - 48) else None.

(** Reads decimal digits: the number read so far and how many. *)
Fixpoint digits (acc : Z) (count : nat) (s : string) : Z * nat * string :=
  match s with
  | EmptyString => (acc, count, s)
  | String c s' =>
      match digit c with
      | Some d => digits (10 * acc + d) (S count) s'
      | None => (acc, count, s)
      end
  end.

Definition signed (neg : bool) (n : Z) (scale : nat) : float :=
  match n with
  | Zpos m =>
      SFdiv prec emax (S754_finite neg m 0)
        (S754_finite false (Z.to_pos (10 ^ Z.of_nat scale)) 0)
  | _ => S754_zero neg
  end.

(** The [float(s)] of the concrete runs below: it reads the plain decimal
    literals ([-12], [3.25], [.5], [7.]), which is what the duration
    probe prints, to the double that Python gives them, and refuses
    everything else (exponents, [inf], [nan], digit separators among
    them, which Python would read: the runs do not use them). *)
Definition float_of_decimal (s : string) : option float :=
  let '(neg, body) :=
    match s with
    | String "-" s' => (true, s')
    | String "+" s' => (false, s')
    | _ => (false, s)
    end in
  let '(int_part, n_int, rest) := digits 0 0 body in
  match rest with
  | EmptyString =>
      if (0 <? n_int)%nat then Some (signed neg int_part 0) else None
  | String "." rest' =>
      let '(all, n_frac, rest'') := digits int_part 0 rest' in
      match rest'' with
      | EmptyString =>
          if (0 <? n_int + n_frac)%nat then Some (signed neg all n_frac) else None
      | _ => None
      end
  | _ => None
  end.

(** tqdm with the [bar_format] of line 116: once the counter is past the
    total by 0.5 or more, the total is dropped, and [{total:.2f}] raises
    [TypeError] when the bar is drawn; it is drawn for sure when it is
    closed. *)
Definition counter (calls : list BarCall) : float :=
  fold_left (fun n call => match call with BarUpdate d => add n d | _ => n end)
    calls (of_Z 0).

Definition half : float := div (of_Z 1) (of_Z 2).

Definition overrun_bar (before : list BarCall) (call : BarCall) : option string :=
  match call, before with
  | BarClose, BarOpen total :: _ =>
      if SFleb (add total half) (counter before) then Some "TypeError" else None
  | _, _ => None
  end.

(** The decimal zeros beyond ASCII of Unicode 14. *)
Definition unicode_zeros : list N :=
  [0x660; 0x6f0; 0x7c0; 0x966; 0x9e6; 0xa66; 0xae6; 0xb66; 0xbe6; 0xc66;
   0xce6; 0xd66; 0xde6; 0xe50; 0xed0; 0xf20; 0x1040; 0x1090; 0x17e0; 0x1810;
   0x1946; 0x19d0; 0x1a80; 0x1a90; 0x1b50; 0x1bb0; 0x1c40; 0x1c50; 0xa620;
   0xa8d0; 0xa900; 0xa9d0; 0xa9f0; 0xaa50; 0xabf0; 0xff10; 0x104a0; 0x10d30;
   0x11066; 0x110f0; 0x11136; 0x111d0; 0x112f0; 0x11450; 0x114d0; 0x11650;
   0x116c0; 0x11730; 0x118e0; 0x11950; 0x11c50; 0x11d50; 0x11da0; 0x16a60;
   0x16ac0; 0x16b50; 0x1d7ce; 0x1d7d8; 0x1d7e2; 0x1d7ec; 0x1d7f6; 0x1e140;
   0x1e2f0; 0x1e950; 0x1fbf0]%N.

(** The code points of an ASCII text. *)
Definition text (s : string) : UStr := map code (list_ascii_of_string s).

Definition env_of (tools : string -> bool) (probe : ProbeResult)
    (enc : EncodeResult) (seg : SegmentResult) : Env :=
  mkEnv tools float_of_decimal (fun _ _ => probe) (fun _ _ => enc)
    (fun _ _ => seg) overrun_bar unicode_zeros.

Definition all_tools (cmd : string) : bool := true.
Definition no_tools (cmd : string) : bool := false.

Definition talk : string := "/media/talk.mp4".

Definition disk : gmap Path Node := {[ Path_of talk := regular 50000000 ]}.

Definition start : World := mkWorld disk [].

(** The same disk after an earlier run that left one chunk behind. *)
Definition old_chunk : Path := output_dir_of (Path_of talk) // "part_007.flac".

Definition used_disk : gmap Path Node :=
  <[old_chunk := regular 512000]>
    (<[output_dir_of (Path_of talk) := directory]> disk).

Definition one : float := of_Z 1.

(** The scenario of the specification: 100 seconds, 32000 bytes per
    second after encoding, chunks of 1 MB, four segments written. *)
Definition probe_100s : ProbeResult := mkProbe 0 "100.000000
" "" true.
Definition encode_ok : EncodeResult := mkEncode 0 (Some "") (Some 3200000%N).
Definition four_segments : list (nat * N) :=
  [(0%nat, 1024000%N); (1%nat, 1024000%N); (2%nat, 1024000%N); (3%nat, 128000%N)].
Definition segment_ok : SegmentResult :=
  mkSegment 0
    [text "size=    1536kB time=00:00:50.00 bitrate= 251.7kbits/s speed= 100x";
     text "size=    3125kB time=00:01:40.00 bitrate= 256.0kbits/s speed= 100x"]
    four_segments false.
Definition segment_failed : SegmentResult :=
  mkSegment 1 [text "Conversion failed!"] [(0%nat, 1024000%N)] false.


(** The encode succeeds, and the stream is a second longer than the
    duration that the probe read in the container. *)
Definition segment_overrun : SegmentResult :=
  mkSegment 0
    [text "size=    3156kB time=00:01:41.00 bitrate= 256.0kbits/s speed= 100x"]
    four_segments false.

(** What the probe prints for a stream without a duration, and for an
    empty one. *)
Definition probe_na : ProbeResult := mkProbe 0 "N/A
" "" true.
Definition probe_zero : ProbeResult := mkProbe 0 "0.000000
" "" true.
Definition probe_failed : ProbeResult :=
  mkProbe 1 "" "talk.mp4: Invalid data found when processing input" true.

(** The probe fails on a file whose name, repeated in its message, is
    not valid in the encoding of the locale. *)
Definition probe_garbled : ProbeResult := mkProbe 1 "" "" false.

Definition encode_failed : EncodeResult :=
  mkEncode 1 (Some "Output file does not contain any stream") None.

Definition happy : Env := env_of all_tools probe_100s encode_ok segment_ok.
Definition no_duration : Env := env_of all_tools probe_na encode_ok segment_ok.
Definition zero_duration : Env :=
  env_of all_tools probe_zero encode_ok segment_ok.
Definition failing_segment : Env :=
  env_of all_tools probe_100s encode_ok segment_failed.
Definition overrun_segment : Env :=
  env_of all_tools probe_100s encode_ok segment_overrun.

End Run.

(** ** The markers that the encoder prints *)

(** The ASCII digit of [d]. *)
Definition digit_char (d : nat) : N := (48 + N.of_nat d)%N.

(** The text [time=ab:cd:ef.gh] for eight characters. *)
Definition marker (ds : list N) : UStr :=
  match ds with
  | [a; b; c; d; e; f; g; h] =>
      [code "t"; code "i"; code "m"; code "e"; code "="; a; b; code ":"; c; d;
       code ":"; e; f; code "."; g; h]
  | _ => []
  end.

(** [%02d] of a number below 100. *)
Definition two_digits (n : nat) : list N :=
  [digit_char (n / 10); digit_char (n mod 10)].

(** The marker of the encoder: [time=HH:MM:SS.CC] in ASCII digits. *)
Definition time_marker (h m s c : nat) : UStr :=
  marker (two_digits h ++ two_digits m ++ two_digits s ++ two_digits c).

(** ** Vocabulary of the statements *)

Definition is_which (e : Event) : bool :=
  match e with EWhich _ _ => true | _ => false end.

(** The event starts an external tool. *)
Definition is_spawn (e : Event) : bool :=
  match e with ERunProbe _ _ | ERunEncode _ _ | EPopen _ _ => true | _ => false end.

(** The events are calls to the progress bar. *)
Definition bar_events (evs : list Event) : Prop :=
  forall e, e ∈ evs -> exists call raised, e = EBar call raised.

(** No call to the progress bar raised. *)
Definition quiet (evs : list Event) : Prop :=
  forall call cls, EBar call (Some cls) ∉ evs.

(** How the block of lines 116-129 ends: at its end, every line read and
    no call to the bar having raised; on the [UnicodeDecodeError] of the
    read; or on what a call to the bar raised. *)
Inductive ProgressOutcome (process : SegmentResult)
    : Result unit -> list Event -> Prop :=
| progress_done evs :
    bar_events evs -> quiet evs -> sr_undecodable process = false ->
    ProgressOutcome process (inr tt) evs
| progress_undecodable evs :
    bar_events evs -> quiet evs -> sr_undecodable process = true ->
    ProgressOutcome process (inl UnicodeDecodeError) evs
| progress_bar_raised evs call cls :
    bar_events evs -> EBar call (Some cls) ∈ evs ->
    ProgressOutcome process (inl (TqdmError cls)) evs.

(** The segmenting pass went through: every line of the encoder was read,
    no call to the bar raised, and the encode exited with code 0. *)
Definition passed (sr : SegmentResult) (t : list Event) : Prop :=
  quiet t /\ sr_undecodable sr = false /\ sr_returncode sr = 0.

(** What the handler of line 138 catches, for a segmenting encode [sr]
    and the events [t] of the run: what a call to the bar raised; or the
    [UnicodeDecodeError] of the read of the encoder's stderr; or, the
    block of lines 116-129 left at its end, the [RuntimeError] of line
    136 for an exit code other than 0. *)
Definition split_failure (sr : SegmentResult) (t : list Event) (e : Exn) : Prop :=
  (exists call cls, EBar call (Some cls) ∈ t /\ e = TqdmError cls) \/
  (quiet t /\ sr_undecodable sr = true /\ e = UnicodeDecodeError) \/
  (quiet t /\ sr_undecodable sr = false /\ sr_returncode sr <> 0 /\
   e = RuntimeError (MsgFfmpegExit (sr_returncode sr))).

(** The pattern has no [*]: it is a literal. *)
Inductive NoStar : string -> Prop :=
| NoStar_nil : NoStar EmptyString
| NoStar_cons c s : Ascii.eqb c "*" = false -> NoStar s -> NoStar (String c s).

(** [str] of the path of chunk [i] in [dir]. *)
Definition chunk_path (dir : Path) (i : nat) : string :=
  path_str (dir // segment_name i).

(** The world a run starts in: a file system, nothing done yet. *)
Definition boot (f : gmap Path Node) : World := mkWorld f [].

(** [Q] holds of the outcome of [c] run in [w]. *)
Definition wp {A} (c : M A) (w : World) (Q : Result A -> World -> Prop) : Prop :=
  Q (c w).1 (c w).2.


(** The error kinds of the specification, by the message of the raise
    statement that produces them. *)
Inductive ErrorKind :=
| DependencyMissing
| SourceNotFound
| ProbeFailure
| EncodeFailure.

Definition error_kind (e : Exn) : option ErrorKind :=
  match e with
  | RuntimeError MsgToolsMissing => Some DependencyMissing
  | FileNotFoundError (MsgFileNotFound _) => Some SourceNotFound
  | RuntimeError (MsgDurationError _) => Some ProbeFailure
  | RuntimeError (MsgAnalysisError _) => Some EncodeFailure
  | RuntimeError (MsgFfmpegExit _) => Some EncodeFailure
  | _ => None
  end.

(** The [except (FileNotFoundError, RuntimeError)] clause of [main]. *)
Definition caught_by_main (e : Exn) : bool :=
  match e with
  | FileNotFoundError _ | RuntimeError _ => true
  | _ => false
  end.

(** What [main] prints on stdout for the list it got (lines 170-173). *)
Definition listing (created_files : list string) : list Event :=
  match created_files with
  | [] => []
  | _ => EPrint Stdout TListHeader
         :: map (fun f => EPrint Stdout (TListItem f)) created_files
  end.

(** * Properties *)

(** ** Signs of rounded results *)

Section Rounding.

Variables prec' emax' : Z.

Lemma shr_1_nonneg mrs : 0 <= shr_m mrs -> 0 <= shr_m (shr_1 mrs).
Proof.
  destruct mrs as [m r t]; simpl.
  destruct m as [|[q|q|]|[q|q|]]; simpl; lia.
Qed.

Lemma iter_shr_1_nonneg p : forall mrs,
  0 <= shr_m mrs -> 0 <= shr_m (SpecFloat.iter_pos shr_1 p mrs).
Proof.
  induction p as [p IH|p IH|]; intros mrs H; simpl.
  - apply IH, IH, shr_1_nonneg, H.
  - apply IH, IH, H.
  - apply shr_1_nonneg, H.
Qed.

Lemma shr_fexp_nonneg m e l :
  0 <= m -> 0 <= shr_m (shr_fexp prec' emax' m e l).1.
Proof.
  intros H. unfold shr_fexp, shr.
  assert (Hm : 0 <= shr_m (shr_record_of_loc m l))
    by (destruct l as [|[]]; exact H).
  destruct (_ - e); simpl; auto using iter_shr_1_nonneg.
Qed.

Lemma round_nearest_even_nonneg m l : 0 <= m -> 0 <= round_nearest_even m l.
Proof.
  intros H. destruct l as [|[]]; simpl; try lia.
  destruct (Z.even m); lia.
Qed.

Lemma binary_round_aux_sign s m e l :
  0 <= m -> has_sign s (binary_round_aux prec' emax' s m e l).
Proof.
  intros H. unfold binary_round_aux.
  pose proof (shr_fexp_nonneg m e l H) as H1.
  destruct (shr_fexp prec' emax' m e l) as [mrs1 e1]; simpl in H1.
  pose proof (shr_fexp_nonneg _ e1 loc_Exact
                (round_nearest_even_nonneg _ (loc_of_shr_record mrs1) H1)) as H2.
  destruct (shr_fexp prec' emax' _ e1 loc_Exact) as [mrs2 e2]; simpl in H2.
  destruct (shr_m mrs2) as [|q|q]; simpl; [reflexivity| |lia].
  destruct (e2 <=? emax' - prec'); reflexivity.
Qed.

Lemma SFmul_sign s1 s2 x y :
  has_sign s1 x -> has_sign s2 y ->
  SFmul prec' emax' x y = S754_nan \/
  has_sign (xorb s1 s2) (SFmul prec' emax' x y).
Proof.
  destruct x as [sx|sx| |sx mx ex], y as [sy|sy| |sy my ey]; simpl;
    try tauto; intros -> ->; auto.
  right. apply binary_round_aux_sign. lia.
Qed.

Lemma SFdiv_core_nonneg m1 e1 m2 e2 :
  0 <= (SFdiv_core_binary prec' emax' (Zpos m1) e1 (Zpos m2) e2).1.1.
Proof.
  unfold SFdiv_core_binary.
  set (sh := _ - _ - Z.min _ _).
  set (m' := match sh with Z0 => _ | Zpos _ => _ | Zneg _ => _ end).
  assert (Hm' : 0 <= m').
  { subst m'. destruct sh; try lia. apply Z.shiftl_nonneg. lia. }
  pose proof (Z.div_pos m' (Zpos m2) Hm' ltac:(lia)) as Hq.
  unfold Z.div in Hq. destruct (Z.div_eucl m' (Zpos m2)) as [q r]. exact Hq.
Qed.

Lemma SFdiv_sign s1 s2 x y :
  has_sign s1 x -> has_sign s2 y ->
  SFdiv prec' emax' x y = S754_nan \/
  has_sign (xorb s1 s2) (SFdiv prec' emax' x y).
Proof.
  destruct x as [sx|sx| |sx mx ex], y as [sy|sy| |sy my ey]; simpl;
    try tauto; intros -> ->; auto.
  right.
  pose proof (SFdiv_core_nonneg mx ex my ey) as H.
  destruct (SFdiv_core_binary prec' emax' (Zpos mx) ex (Zpos my) ey)
    as [[mz ez] lz]; simpl in H.
  apply binary_round_aux_sign, H.
Qed.

End Rounding.

(** ** The segment duration (lines 78-83) *)

Lemma positive_has_sign x : is_positive x = true -> has_sign false x.
Proof. destruct x as [| [] | | [] ? ?]; simpl; congruence. Qed.

Lemma positive_not_zero x : is_positive x = true -> is_zero x = false.
Proof. destruct x as [| [] | | [] ? ?]; simpl; congruence. Qed.

Lemma floor_finite_nonneg m e : 0 <= floor_finite false m e.
Proof. unfold floor_finite. simpl. apply Z.shiftl_nonneg. lia. Qed.

Lemma math_floor_nonneg x :
  has_sign false x -> is_finite x = true ->
  exists n, math_floor x = inr n /\ 0 <= n.
Proof.
  destruct x as [s|s| |s m e]; simpl; try congruence; intros -> _.
  - exists 0. split; [reflexivity | lia].
  - exists (floor_finite false m e). split; [reflexivity | apply floor_finite_nonneg].
Qed.

(** The scaled chunk size over a positive ratio is a NaN or has no
    minus sign. *)
Lemma quotient_sign chunk_size_mb ratio :
  is_positive chunk_size_mb = true -> is_positive ratio = true ->
  let q := div (mul (mul chunk_size_mb f1024) f1024) ratio in
  q = S754_nan \/ has_sign false q.
Proof.
  intros Hc Hr q. subst q. unfold mul, div.
  assert (H1024 : has_sign false f1024) by reflexivity.
  destruct (SFmul_sign prec emax false false _ _ (positive_has_sign _ Hc) H1024)
    as [-> | H1]; [left; reflexivity|].
  destruct (SFmul_sign prec emax _ false _ _ H1 H1024) as [-> | H2];
    [left; reflexivity|].
  apply (SFdiv_sign prec emax _ false _ _ H2 (positive_has_sign _ Hr)).
Qed.

(** C4 (amended): for a positive chunk size and a positive calibration
    ratio whose quotient [chunk_size_mb * 1024 * 1024 / ratio] is a
    finite double, the segment duration is the floor of that quotient,
    replaced by 60 when the floor is not above 0, and so it is a positive
    integer; 1 MB at 32000 bytes per second gives 32. *)
Theorem segment_duration_positive (chunk_size_mb ratio : float) :
  is_positive chunk_size_mb = true ->
  is_positive ratio = true ->
  is_finite (div (mul (mul chunk_size_mb f1024) f1024) ratio) = true ->
  (exists n : Z,
      math_floor (div (mul (mul chunk_size_mb f1024) f1024) ratio) = inr n /\
      segment_duration_for chunk_size_mb ratio
      = inr (if n <=? 0 then fallback_segment_duration else n) /\
      0 < (if n <=? 0 then fallback_segment_duration else n)) /\
  segment_duration_for (of_Z 1) (of_Z 32000) = inr (1048576 / 32000) /\
  1048576 / 32000 = 32.
Proof.
  intros Hc Hr Hfin. split; [|split; reflexivity].
  destruct (quotient_sign _ _ Hc Hr) as [Hnan | Hsign].
  { rewrite Hnan in Hfin. discriminate. }
  destruct (math_floor_nonneg _ Hsign Hfin) as (n & Hn & Hge).
  exists n. split; [exact Hn|]. split.
  - unfold segment_duration_for, truediv.
    rewrite (positive_not_zero _ Hr). simpl. rewrite Hn. reflexivity.
  - unfold fallback_segment_duration. destruct (n <=? 0) eqn:E; lia.
Qed.

Lemma segment_duration_positive_witness :
  exists n : Z,
    segment_duration_for (of_Z 20) (of_Z 32000) = inr n /\ 0 < n.
Proof.
  destruct (segment_duration_positive (of_Z 20) (of_Z 32000))
    as [(n & _ & Hn & Hpos) _]; [reflexivity..|].
  exists (if n <=? 0 then fallback_segment_duration else n). split; assumption.
Defined.

(** C4, as stated, fails where the doubles overflow: a chunk size of
    1e308 MB is positive, its scaling by 1024 is already an infinity,
    and [math.floor] raises [OverflowError] on it. *)
Lemma segment_duration_overflow :
  is_positive (of_Z (10 ^ 308)) = true /\
  is_positive (of_Z 32000) = true /\
  segment_duration_for (of_Z (10 ^ 308)) (of_Z 32000) = inl OverflowError.
Proof. vm_compute. auto. Qed.


(** ** Running the script symbolically *)

Lemma wp_ret {A} (a : A) w Q : Q (inr a) w -> wp (ret a) w Q.
Proof. exact id. Qed.
Lemma wp_raise {A} e w (Q : Result A -> World -> Prop) : Q (inl e) w -> wp (raise e) w Q.
Proof. exact id. Qed.
Lemma wp_lift {A} (r : Result A) w Q : Q r w -> wp (lift r) w Q.
Proof. exact id. Qed.
Lemma wp_log e w Q : Q (inr tt) (mkWorld (fs w) (trace w ++ [e])) -> wp (log e) w Q.
Proof. exact id. Qed.
Lemma wp_get_fs w Q : Q (inr (fs w)) w -> wp get_fs w Q.
Proof. exact id. Qed.
Lemma wp_set_fs f w Q : Q (inr tt) (mkWorld f (trace w)) -> wp (set_fs f) w Q.
Proof. exact id. Qed.
Lemma wp_get_trace w Q : Q (inr (trace w)) w -> wp get_trace w Q.
Proof. exact id. Qed.
Lemma wp_bind {A B} (c : M A) (k : A -> M B) w Q :
  wp c w (fun r w1 => match r with inr a => wp (k a) w1 Q | inl e => Q (inl e) w1 end) ->
  wp (bind c k) w Q.
Proof. unfold wp, bind. destruct (c w) as [[e|a] w1]; simpl; auto. Qed.
Lemma wp_try_except {A} (body : M A) handler w Q :
  wp body w (fun r w1 =>
    match r with
    | inr a => Q (inr a) w1
    | inl e => match handler e with Some h => wp h w1 Q | None => Q (inl e) w1 end
    end) ->
  wp (try_except body handler) w Q.
Proof.
  unfold wp, try_except. destruct (body w) as [[e|a] w1]; simpl; auto.
  destruct (handler e); auto.
Qed.
Lemma wp_try_finally {A} (body : M A) fin w Q :
  wp body w (fun r w1 =>
    wp fin w1 (fun rf w2 => match rf with inr _ => Q r w2 | inl e => Q (inl e) w2 end)) ->
  wp (try_finally body fin) w Q.
Proof.
  unfold wp, try_finally. destruct (body w) as [r w1]; simpl.
  destruct (fin w1) as [[e|u] w2]; simpl; auto.
Qed.
Lemma wp_run {A} (c : M A) w Q r w' : wp c w Q -> c w = (r, w') -> Q r w'.
Proof. unfold wp. intros H E. rewrite E in H. exact H. Qed.

(** *** The progress loop *)

Lemma bar_run env call w :
  bar env call w
  = (match tqdm env (bar_calls (trace w)) call with
     | Some cls => inl (TqdmError cls)
     | None => inr tt
     end,
     mkWorld (fs w)
       (trace w ++ [EBar call (tqdm env (bar_calls (trace w)) call)])).
Proof.
  unfold bar, bind, get_trace, log, raise, ret. cbn.
  destruct (tqdm _ _ _); reflexivity.
Qed.

Lemma bar_events_nil : bar_events [].
Proof. intros e He. apply elem_of_nil in He. destruct He. Qed.

Lemma bar_events_app evs1 evs2 :
  bar_events evs1 -> bar_events evs2 -> bar_events (evs1 ++ evs2).
Proof. intros H1 H2 e [He|He]%elem_of_app; auto. Qed.

Lemma bar_events_one call raised : bar_events [EBar call raised].
Proof. intros e ->%list_elem_of_singleton. eauto. Qed.

Lemma quiet_nil : quiet [].
Proof. intros call cls He. apply elem_of_nil in He. destruct He. Qed.

Lemma quiet_app evs1 evs2 : quiet evs1 -> quiet evs2 -> quiet (evs1 ++ evs2).
Proof. intros H1 H2 call cls [He|He]%elem_of_app; [eapply H1 | eapply H2]; eauto. Qed.

Lemma quiet_one call : quiet [EBar call None].
Proof. intros call' cls He%list_elem_of_singleton. discriminate. Qed.

(** What one call to the bar does: one event, and an exception of the
    bar when the event says so. *)
Lemma bar_outcome env call w :
  exists raised,
    bar env call w
    = (match raised with Some cls => inl (TqdmError cls) | None => inr tt end,
       mkWorld (fs w) (trace w ++ [EBar call raised])).
Proof. eexists. apply bar_run. Qed.

(** The loop over the lines only calls the bar, and raises what the bar
    raises. *)
Lemma read_progress_run env lines : forall previous_time n w,
  exists r evs,
    read_progress env lines previous_time n w
    = (r, mkWorld (fs w) (trace w ++ evs)) /\
    bar_events evs /\
    match r with
    | inr _ => quiet evs
    | inl e => exists call cls, e = TqdmError cls /\ EBar call (Some cls) ∈ evs
    end.
Proof.
  induction lines as [|line rest IH]; intros previous_time n w.
  - exists (inr n), []. rewrite app_nil_r. destruct w.
    split; [reflexivity|]. split; [apply bar_events_nil | apply quiet_nil].
  - cbn [read_progress].
    destruct (progress_time _ line) as [[[[h m] s] ms]|]; [|apply IH].
    unfold bind at 1.
    destruct (bar_outcome env (BarUpdate (sub (current_time_of h m s ms) previous_time))
                w) as [[cls|] ->].
    + exists (inl (TqdmError cls)), [EBar (BarUpdate (sub (current_time_of h m s ms) previous_time)) (Some cls)].
      split; [reflexivity|]. split; [apply bar_events_one|].
      exists (BarUpdate (sub (current_time_of h m s ms) previous_time)), cls.
      split; [reflexivity | apply list_elem_of_singleton; reflexivity].
    + destruct (IH (current_time_of h m s ms)
                  (add n (sub (current_time_of h m s ms) previous_time))
                  (mkWorld (fs w)
                     (trace w ++ [EBar (BarUpdate (sub (current_time_of h m s ms)
                                                     previous_time)) None])))
        as (r & evs & -> & Hbars & Hr).
      exists r, (EBar (BarUpdate (sub (current_time_of h m s ms) previous_time)) None
                 :: evs).
      cbn [fs trace]. rewrite <- app_assoc. split; [reflexivity|].
      split; [apply (bar_events_app [_]); [apply bar_events_one | exact Hbars]|].
      destruct r as [e|n'].
      * destruct Hr as (call & cls & -> & Hin). exists call, cls.
        split; [reflexivity | apply elem_of_cons; right; exact Hin].
      * apply (quiet_app [_]); [apply quiet_one | exact Hr].
Qed.

Lemma progress_run env total_duration process w :
  exists r evs,
    progress env total_duration process w = (r, mkWorld (fs w) (trace w ++ evs)) /\
    ProgressOutcome process r evs.
Proof.
  unfold progress. unfold bind at 1.
  destruct (bar_outcome env (BarOpen total_duration) w) as [[cls|] ->].
  { exists (inl (TqdmError cls)), [EBar (BarOpen total_duration) (Some cls)].
    split; [reflexivity|].
    apply (progress_bar_raised _ _ (BarOpen total_duration));
      [apply bar_events_one | apply list_elem_of_singleton; reflexivity]. }
  set (w0 := mkWorld (fs w) (trace w ++ [EBar (BarOpen total_duration) None])).
  assert (Hbody : exists r evs,
    (let* n := read_progress env (sr_stderr process) (of_Z 0) (of_Z 0) in
     (if sr_undecodable process then raise UnicodeDecodeError else ret tt);;
     if ltb n total_duration then bar env (BarUpdate (sub total_duration n))
     else ret tt) w0 = (r, mkWorld (fs w0) (trace w0 ++ evs)) /\
    ProgressOutcome process r evs).
  { unfold bind at 1.
    destruct (read_progress_run env (sr_stderr process) (of_Z 0) (of_Z 0) w0)
      as (r & evs & -> & Hbars & Hr).
    destruct r as [e|n].
    - destruct Hr as (call & cls & -> & Hin).
      exists (inl (TqdmError cls)), evs. split; [reflexivity|].
      apply (progress_bar_raised _ _ call); assumption.
    - unfold bind at 1. destruct (sr_undecodable process) eqn:Hdec.
      + exists (inl UnicodeDecodeError), evs. split; [reflexivity|].
        apply progress_undecodable; assumption.
      + cbn [ret]. destruct (ltb n total_duration).
        * destruct (bar_outcome env (BarUpdate (sub total_duration n))
                      (mkWorld (fs w0) (trace w0 ++ evs))) as [[cls|] ->];
            cbn [fs trace]; rewrite <- app_assoc.
          -- exists (inl (TqdmError cls)),
               (evs ++ [EBar (BarUpdate (sub total_duration n)) (Some cls)]).
             split; [reflexivity|].
             apply (progress_bar_raised _ _ (BarUpdate (sub total_duration n)));
               [apply bar_events_app; [exact Hbars | apply bar_events_one]
               |apply elem_of_app; right; apply list_elem_of_singleton; reflexivity].
          -- exists (inr tt), (evs ++ [EBar (BarUpdate (sub total_duration n)) None]).
             split; [reflexivity|].
             apply progress_done;
               [apply bar_events_app; [exact Hbars | apply bar_events_one]
               |apply quiet_app; [exact Hr | apply quiet_one]
               |exact Hdec].
        * exists (inr tt), evs. split; [reflexivity|].
          apply progress_done; assumption. }
  destruct Hbody as (r & evs & Hbody & Hout).
  unfold try_finally. rewrite Hbody.
  destruct (bar_outcome env BarClose (mkWorld (fs w0) (trace w0 ++ evs)))
    as [[cls|] ->]; subst w0; cbn [fs trace]; rewrite <- !app_assoc; cbn [app].
  - exists (inl (TqdmError cls)),
      (EBar (BarOpen total_duration) None :: evs ++ [EBar BarClose (Some cls)]).
    split; [reflexivity|].
    apply (progress_bar_raised _ _ BarClose).
    + apply (bar_events_app [_]); [apply bar_events_one|].
      apply bar_events_app; [|apply bar_events_one].
      destruct Hout; assumption.
    + apply elem_of_cons. right. apply elem_of_app. right.
      apply list_elem_of_singleton. reflexivity.
  - exists r, (EBar (BarOpen total_duration) None :: evs ++ [EBar BarClose None]).
    split; [reflexivity|].
    destruct Hout as [evs Hbars Hquiet Hdec|evs Hbars Hquiet Hdec|evs call cls' Hbars Hin].
    + apply progress_done; [|
        apply (quiet_app [_]); [apply quiet_one|];
        apply quiet_app; [exact Hquiet | apply quiet_one]
        |exact Hdec].
      apply (bar_events_app [_]); [apply bar_events_one|].
      apply bar_events_app; [exact Hbars | apply bar_events_one].
    + apply progress_undecodable; [|
        apply (quiet_app [_]); [apply quiet_one|];
        apply quiet_app; [exact Hquiet | apply quiet_one]
        |exact Hdec].
      apply (bar_events_app [_]); [apply bar_events_one|].
      apply bar_events_app; [exact Hbars | apply bar_events_one].
    + apply (progress_bar_raised _ _ call).
      * apply (bar_events_app [_]); [apply bar_events_one|].
        apply bar_events_app; [exact Hbars | apply bar_events_one].
      * apply elem_of_cons. right. apply elem_of_app. left. exact Hin.
Qed.

Lemma wp_progress env total_duration process w
    (Q : Result unit -> World -> Prop) :
  (forall evs, bar_events evs -> quiet evs -> sr_undecodable process = false ->
     Q (inr tt) (mkWorld (fs w) (trace w ++ evs))) ->
  (forall evs, bar_events evs -> quiet evs -> sr_undecodable process = true ->
     Q (inl UnicodeDecodeError) (mkWorld (fs w) (trace w ++ evs))) ->
  (forall evs call cls, bar_events evs -> EBar call (Some cls) ∈ evs ->
     Q (inl (TqdmError cls)) (mkWorld (fs w) (trace w ++ evs))) ->
  wp (progress env total_duration process) w Q.
Proof.
  intros Hdone Hdec Hbar. unfold wp.
  destruct (progress_run env total_duration process w) as (r & evs & -> & Hout).
  cbn [fst snd]. destruct Hout; eauto.
Qed.


Ltac wp_prim :=
  lazymatch goal with
  | |- wp (bind _ _) _ _ => apply wp_bind
  | |- wp (ret _) _ _ => apply wp_ret
  | |- wp (raise _) _ _ => apply wp_raise
  | |- wp (lift _) _ _ => apply wp_lift
  | |- wp (log _) _ _ => apply wp_log
  | |- wp (print _ _) _ _ => apply wp_log
  | |- wp get_fs _ _ => apply wp_get_fs
  | |- wp get_trace _ _ => apply wp_get_trace
  | |- wp (set_fs _) _ _ => apply wp_set_fs
  | |- wp (try_except _ _) _ _ => apply wp_try_except
  | |- wp (try_finally _ _) _ _ => apply wp_try_finally
  end.

Ltac wp_unfold :=
  lazymatch goal with
  | |- wp (split_audio_by_size _ _ _) _ _ => unfold split_audio_by_size
  | |- wp (tools_missing _) _ _ => unfold tools_missing
  | |- wp (shutil_which _ _) _ _ => unfold shutil_which
  | |- wp (is_file _) _ _ => unfold is_file
  | |- wp (mkdir_exist_ok _) _ _ => unfold mkdir_exist_ok
  | |- wp (probe_duration _ _) _ _ => unfold probe_duration
  | |- wp (run_ffprobe _ _) _ _ => unfold run_ffprobe
  | |- wp (analyse _ _ _ _ _) _ _ => unfold analyse
  | |- wp (run_ffmpeg _ _ _) _ _ => unfold run_ffmpeg
  | |- wp (stat_size _) _ _ => unfold stat_size
  | |- wp (exists_ _) _ _ => unfold exists_
  | |- wp (unlink _) _ _ => unfold unlink
  | |- wp (segment _ _ _ _ _) _ _ => unfold segment
  | |- wp (popen_ffmpeg _ _ _) _ _ => unfold popen_ffmpeg
  | |- wp (glob _ _) _ _ => unfold glob
  end.

Lemma output_dir_ne_temp src : output_dir_of src <> temp_flac_path_of src.
Proof.
  unfold temp_flac_path_of, path_join. intros H.
  apply (f_equal (fun p => length (parts p))) in H. cbn [parts] in H.
  rewrite length_app in H. cbn [length] in H. lia.
Qed.

(** What the arithmetic of lines 78-83 can raise. *)
Lemma compute_segment_duration_cases size total_duration chunk_size_mb :
  (exists d, compute_segment_duration size total_duration chunk_size_mb = inr d) \/
  compute_segment_duration size total_duration chunk_size_mb = inl OverflowError \/
  compute_segment_duration size total_duration chunk_size_mb = inl ZeroDivisionError \/
  compute_segment_duration size total_duration chunk_size_mb = inl ValueError.
Proof.
  unfold compute_segment_duration, segment_duration_for, float_of_int, truediv,
    and_then.
  destruct (of_Z size); auto;
    (destruct (is_zero total_duration); auto);
    (destruct (is_zero _); auto);
    (destruct (div (mul _ _) _); simpl; eauto).
Qed.

Ltac wp_arith :=
  lazymatch goal with
  | |- wp (lift (compute_segment_duration ?a ?b ?c)) _ _ =>
      let d := fresh "d" in
      let Hd := fresh "Hd" in
      apply wp_lift;
      destruct (compute_segment_duration_cases a b c) as [[d Hd]|[Hd|[Hd|Hd]]];
      rewrite Hd
  end.

Ltac inner x k :=
  lazymatch x with
  | match ?y with _ => _ end => inner y k
  | negb ?y => inner y k
  | bool_decide (is_Some ?y) => inner y k
  | is_dir ?y => k (is_dir y)
  | _ => k x
  end.

Ltac wp_case :=
  lazymatch goal with
  | |- wp (match ?x with _ => _ end) _ _ => inner x ltac:(fun y => destruct y eqn:?)
  | |- match ?x with _ => _ end => inner x ltac:(fun y => destruct y eqn:?)
  end.

Ltac wp_cbn :=
  cbn beta iota delta [fs trace fst snd app is_ValueError is_Exception negb
                       fmap option_fmap option_map is_dir st_size regular
                       directory cp_stderr cp_returncode cp_cmd].

Ltac wp_simpl :=
  try unfold py_float; try unfold decode_utf8;
  wp_cbn;
  try lazymatch goal with
  | |- context [(<[_ := _]> _) !! _] =>
      progress rewrite ?lookup_insert_eq,
        ?(lookup_insert_ne _ _ _ _ (output_dir_ne_temp _));
      wp_cbn
  end;
  try lazymatch goal with
  | |- context [bool_decide _] =>
      rewrite ?bool_decide_eq_true_2, ?bool_decide_eq_false_2
        by (eauto using is_Some_None)
  end.

Ltac wp_loop :=
  lazymatch goal with
  | |- wp (progress _ _ _) _ _ =>
      apply wp_progress; [intros ? ? ? ? | intros ? ? ? ? | intros ? ? ? ? ?]
  end.

Ltac wp_go :=
  repeat (first [wp_arith | wp_loop | wp_prim | wp_unfold | wp_case]; wp_simpl).

Ltac eqb_inv :=
  repeat match goal with
  | H : (_ =? _) = true |- _ => apply Z.eqb_eq in H
  | H : (_ =? _) = false |- _ => apply Z.eqb_neq in H
  end.

Ltac mem_inv :=
  repeat match goal with
  | H : _ ∈ [] |- _ => apply elem_of_nil in H; destruct H
  | H : _ ∈ _ :: _ |- _ => apply elem_of_cons in H; destruct H as [H|H]; [try discriminate H|]
  | H : _ ∈ _ ++ _ |- _ => apply elem_of_app in H; destruct H as [H|H]
  | H : EBar ?call (Some ?cls) ∈ ?evs, Hq : quiet ?evs |- _ =>
      destruct (Hq call cls H)
  | H : ?e ∈ ?evs, Hb : bar_events ?evs |- _ =>
      lazymatch e with
      | EBar _ _ => fail
      | _ => let E := fresh "E" in
             destruct (Hb e H) as (? & ? & E); first [discriminate E | subst e]
      end
  end.

Lemma last_cons_snoc {A} (x : A) l y : last (x :: l ++ [y]) = Some y.
Proof. change (x :: l ++ [y]) with ((x :: l) ++ [y]). apply last_snoc. Qed.

Ltac mem_solve :=
  first [ eassumption
        | apply list_elem_of_here
        | apply list_elem_of_further; mem_solve
        | apply elem_of_app; first [left; mem_solve | right; mem_solve] ].

Ltac quiet_solve := solve [intros ? ? ?; mem_inv].

Ltac last_solve := rewrite ?last_cons_cons; apply last_cons_snoc.

(** The trace of a concrete run, computed. *)
Ltac run_trace Hw Ht :=
  match type of Hw with
  | ?w = ?run =>
      let t := eval vm_compute in (trace run) in
      assert (Ht : trace w = t) by (rewrite Hw; vm_compute; reflexivity)
  end.

(** ** C1, C3: a failing segmentation pass *)

(** Once the segmenting encode is started, the run ends in one of two
    ways.  Either the pass goes through, and what is returned is the
    sorted enumeration of the output directory; or the handler of line
    138 has the last word: the function returns the empty list, and the
    last thing done is the print of line 139. *)
Lemma segmentation_outcome env input_file chunk_size_mb f r w' argv sr :
  split_audio_by_size env input_file chunk_size_mb (boot f) = (r, w') ->
  EPopen argv sr ∈ trace w' ->
  (passed sr (trace w') /\
   exists found,
     EGlob (output_dir_of (Path_of input_file)) "part_*.flac" found ∈ trace w' /\
     r = inr (sorted (map path_str found))) \/
  (exists e,
     split_failure sr (trace w') e /\
     r = inr [] /\
     last (trace w') = Some (EPrint Stderr (TSplitFailed e))).
Proof.
  intros Hrun. revert argv sr.
  refine (wp_run _ _ (fun r w' => forall argv sr, EPopen argv sr ∈ trace w' -> _ \/ _)
            _ _ _ Hrun).
  clear. unfold boot. wp_go.
  all: intros argv sr Hin; mem_inv.
  all: simplify_eq; eqb_inv.
  all: first
    [ solve [left; split;
             [split; [quiet_solve | split; assumption]
             |eexists; split; [mem_solve | reflexivity]]]
    | right; eexists; split; [|split; [reflexivity | last_solve]];
      first
        [ solve [left; do 2 eexists; split; [mem_solve | reflexivity]]
        | solve [right; left; split; [quiet_solve | split; [assumption | reflexivity]]]
        | solve [right; right; split;
                 [quiet_solve | split; [assumption | split; [assumption | reflexivity]]]]
        ] ].
Qed.


(** After a block of lines 116-129 left at its end, what the handler
    catches is the [RuntimeError] of line 136. *)
Lemma split_failure_exit sr t e :
  split_failure sr t e -> quiet t -> sr_undecodable sr = false ->
  e = RuntimeError (MsgFfmpegExit (sr_returncode sr)).
Proof.
  intros [(call & cls & Hin & _)|[(_ & Hdec' & _)|(_ & _ & _ & ->)]] Hquiet Hdec.
  - destruct (Hquiet call cls Hin).
  - congruence.
  - reflexivity.
Qed.

(** C1 (amended): when the final segmentation pass exits with a non-zero
    code, [split_audio_by_size] raises nothing: it prints an error on the
    error stream, last thing, and returns the empty list.  The error
    printed is the [RuntimeError] of line 136, with the exit code, when
    the progress block of lines 116-129 was left at its end; when that
    block raised (on the read of the encoder's stderr, in a call to the
    bar), the exit code is never looked at and the error printed is what
    the block raised. *)
Theorem segmentation_failure_returns_empty
    env input_file chunk_size_mb f r w' argv sr :
  split_audio_by_size env input_file chunk_size_mb (boot f) = (r, w') ->
  EPopen argv sr ∈ trace w' ->
  sr_returncode sr <> 0 ->
  r = inr [] /\
  (forall e, r <> inl e) /\
  exists e,
    last (trace w') = Some (EPrint Stderr (TSplitFailed e)) /\
    split_failure sr (trace w') e /\
    (quiet (trace w') -> sr_undecodable sr = false ->
     e = RuntimeError (MsgFfmpegExit (sr_returncode sr))).
Proof.
  intros Hrun Hin Hrc.
  destruct (segmentation_outcome _ _ _ _ _ _ _ _ Hrun Hin)
    as [[(_ & _ & Hzero) _]|(e & Hfail & -> & Hlast)]; [contradiction|].
  split; [reflexivity|]. split; [discriminate|].
  exists e. split; [exact Hlast|]. split; [exact Hfail|].
  apply split_failure_exit, Hfail.
Qed.

Lemma segmentation_failure_returns_empty_witness :
  (split_audio_by_size Run.failing_segment Run.talk Run.one (boot Run.disk)).1
  = inr [].
Proof.
  destruct (split_audio_by_size Run.failing_segment Run.talk Run.one (boot Run.disk))
    as [r w'] eqn:Hrun.
  refine (proj1 (segmentation_failure_returns_empty Run.failing_segment Run.talk
                   Run.one Run.disk r w'
                   (split_cmd (Path_of Run.talk) 32
                      (output_dir_of (Path_of Run.talk) // "part_%03d.flac"))
                   Run.segment_failed Hrun _ _)).
  - apply (f_equal (fun x => trace x.2 !! 13%nat)) in Hrun.
    apply (list_elem_of_lookup_2 _ 13%nat). cbn [snd] in Hrun. rewrite <- Hrun.
    vm_compute. reflexivity.
  - discriminate.
Defined.

(** C1, as stated, fails: here the segmenting encode exits with code 1
    and the caller gets a list, not an error. *)
Lemma segmentation_failure_not_raised :
  sr_returncode Run.segment_failed = 1 /\
  (split_audio_by_size Run.failing_segment Run.talk Run.one (boot Run.disk)).1
  = inr [] /\
  trace (split_audio_by_size Run.failing_segment Run.talk Run.one (boot Run.disk)).2
  !! 13%nat
  = Some (EPopen (split_cmd (Path_of Run.talk) 32
                    (output_dir_of (Path_of Run.talk) // "part_%03d.flac"))
            Run.segment_failed).
Proof. repeat split; vm_compute; reflexivity. Qed.

(** ** C3: the exit status of [main] *)

Lemma print_files_run l w :
  print_files l w
  = (inr tt,
     mkWorld (fs w) (trace w ++ map (fun f => EPrint Stdout (TListItem f)) l)).
Proof.
  revert w. induction l as [|f l IH]; intros w; simpl.
  - rewrite app_nil_r. destruct w; reflexivity.
  - unfold bind, print, log. rewrite IH. simpl. rewrite <- app_assoc. reflexivity.
Qed.

(** [main] in terms of what [split_audio_by_size] did. *)
Lemma main_run env input_file size w r w1 :
  split_audio_by_size env input_file size w = (r, w1) ->
  main env input_file size w
  = match r with
    | inr created_files =>
        (inr tt, mkWorld (fs w1) (trace w1 ++ listing created_files))
    | inl e =>
        if caught_by_main e
        then (inl (SystemExit 1),
              mkWorld (fs w1) (trace w1 ++ [EPrint Stderr (TCritical e)]))
        else (inl e, w1)
    end.
Proof.
  intros Hrun. unfold main, try_except, bind at 1. rewrite Hrun.
  destruct r as [e|l].
  - destruct e; reflexivity.
  - destruct l as [|f l].
    + simpl. rewrite app_nil_r. destruct w1; reflexivity.
    + unfold bind, print, log. rewrite print_files_run. simpl.
      rewrite <- app_assoc. reflexivity.
Qed.

(** C3 (amended): [main] ends with status 0 whenever
    [split_audio_by_size] returns a list, and with status 1, after a
    message on the error stream, on every [FileNotFoundError] or
    [RuntimeError] it raises; any other exception is not caught.  A
    segmentation pass that did not go through (an exit code other than
    0, or an exception in the progress block of lines 116-129) is in the
    first case: its error is on the error stream and the status is 0;
    that error is the [RuntimeError] of line 136 when the progress block
    was left at its end. *)
Theorem main_exit_status env input_file size f r w1 :
  split_audio_by_size env input_file size (boot f) = (r, w1) ->
  match r with
  | inr created_files =>
      main env input_file size (boot f)
      = (inr tt, mkWorld (fs w1) (trace w1 ++ listing created_files)) /\
      exit_status (main env input_file size (boot f)).1 = 0
  | inl e =>
      if caught_by_main e
      then main env input_file size (boot f)
           = (inl (SystemExit 1),
              mkWorld (fs w1) (trace w1 ++ [EPrint Stderr (TCritical e)])) /\
           exit_status (main env input_file size (boot f)).1 = 1
      else main env input_file size (boot f) = (inl e, w1)
  end /\
  (forall argv sr,
      EPopen argv sr ∈ trace w1 -> ~ passed sr (trace w1) ->
      exit_status (main env input_file size (boot f)).1 = 0 /\
      exists e,
        EPrint Stderr (TSplitFailed e) ∈ trace (main env input_file size (boot f)).2 /\
        split_failure sr (trace w1) e /\
        (quiet (trace w1) -> sr_undecodable sr = false ->
         e = RuntimeError (MsgFfmpegExit (sr_returncode sr)))).
Proof.
  intros Hrun. rewrite (main_run _ _ _ _ _ _ Hrun). split.
  - destruct r as [e|l]; [destruct (caught_by_main e)|]; auto.
  - intros argv sr Hin Hnot.
    destruct (segmentation_outcome _ _ _ _ _ _ _ _ Hrun Hin)
      as [[Hpassed _]|(e & Hfail & -> & Hlast)]; [contradiction|].
    split; [reflexivity|]. exists e. cbn [snd trace listing]. rewrite app_nil_r.
    split; [|split; [exact Hfail | apply split_failure_exit, Hfail]].
    apply last_Some in Hlast as [l' ->]. apply elem_of_app. right. constructor.
Qed.

Lemma main_exit_status_witness :
  exit_status (main Run.failing_segment Run.talk Run.one (boot Run.disk)).1 = 0.
Proof.
  destruct (split_audio_by_size Run.failing_segment Run.talk Run.one (boot Run.disk))
    as [r w1] eqn:Hrun.
  refine (proj1 (proj2 (main_exit_status Run.failing_segment Run.talk Run.one
                          Run.disk r w1 Hrun)
                   (split_cmd (Path_of Run.talk) 32
                      (output_dir_of (Path_of Run.talk) // "part_%03d.flac"))
                   Run.segment_failed _ _)).
  - apply (f_equal (fun x => trace x.2 !! 13%nat)) in Hrun.
    apply (list_elem_of_lookup_2 _ 13%nat). cbn [snd] in Hrun. rewrite <- Hrun.
    vm_compute. reflexivity.
  - intros (_ & _ & Hrc). discriminate Hrc.
Defined.

(** C3, as stated, fails on a segmentation-stage failure: the encode
    exits with code 1 and [main] ends with status 0. *)
Lemma main_exit_status_after_failed_segmentation :
  sr_returncode Run.segment_failed = 1 /\
  trace (main Run.failing_segment Run.talk Run.one (boot Run.disk)).2 !! 13%nat
  = Some (EPopen (split_cmd (Path_of Run.talk) 32
                    (output_dir_of (Path_of Run.talk) // "part_%03d.flac"))
            Run.segment_failed) /\
  exit_status (main Run.failing_segment Run.talk Run.one (boot Run.disk)).1 = 0.
Proof. repeat split; vm_compute; reflexivity. Qed.

(** ** C6: the order of the precondition checks *)

(** C6: when an executable is missing, [split_audio_by_size] raises the
    dependency error after PATH lookups only, the file system unread and
    unchanged; when both are found and the source is not a file, it
    raises the file-not-found error after the two lookups and the one
    test of the source, before any tool is started. *)
Theorem preconditions_ordered env input_file chunk_size_mb f :
  (which env "ffmpeg" && which env "ffprobe" = false ->
   exists lookups,
     split_audio_by_size env input_file chunk_size_mb (boot f)
     = (inl (RuntimeError MsgToolsMissing), mkWorld f lookups)
     /\ forallb is_which lookups = true) /\
  (which env "ffmpeg" && which env "ffprobe" = true ->
   is_regular (f !! Path_of input_file) = false ->
   split_audio_by_size env input_file chunk_size_mb (boot f)
   = (inl (FileNotFoundError (MsgFileNotFound input_file)),
      mkWorld f [EWhich "ffmpeg" true; EWhich "ffprobe" true;
                 EIsFile (Path_of input_file) false])
   /\ forallb (fun e => negb (is_spawn e))
        [EWhich "ffmpeg" true; EWhich "ffprobe" true;
         EIsFile (Path_of input_file) false] = true).
Proof.
  split.
  - intros Hmiss.
    exists (if which env "ffmpeg"
            then [EWhich "ffmpeg" true; EWhich "ffprobe" false]
            else [EWhich "ffmpeg" false]).
    split; [|destruct (which env "ffmpeg"); reflexivity].
    unfold split_audio_by_size, tools_missing, shutil_which, boot.
    cbv [bind ret raise log]. cbn [fs trace app].
    destruct (which env "ffmpeg"); cbn [negb andb] in *; [|reflexivity].
    rewrite Hmiss. reflexivity.
  - intros Hfound Hnofile. split; [|reflexivity].
    apply andb_true_iff in Hfound as [Hffmpeg Hffprobe].
    unfold split_audio_by_size, tools_missing, shutil_which, is_file, boot.
    cbv [bind ret raise log get_fs]. cbn [fs trace app].
    rewrite Hffmpeg. cbn [negb]. rewrite Hffprobe. cbn [negb fs trace app].
    rewrite Hnofile. reflexivity.
Qed.

Lemma preconditions_ordered_witness :
  (split_audio_by_size (Run.env_of Run.no_tools Run.probe_100s Run.encode_ok
                          Run.segment_ok) Run.talk Run.one (boot Run.disk)).1
  = inl (RuntimeError MsgToolsMissing) /\
  (split_audio_by_size Run.happy "/media/absent.mp4" Run.one (boot Run.disk)).1
  = inl (FileNotFoundError (MsgFileNotFound "/media/absent.mp4")).
Proof.
  split.
  - destruct (proj1 (preconditions_ordered
                       (Run.env_of Run.no_tools Run.probe_100s Run.encode_ok
                          Run.segment_ok) Run.talk Run.one Run.disk))
      as (lookups & -> & _); reflexivity.
  - rewrite (proj1 (proj2 (preconditions_ordered Run.happy "/media/absent.mp4"
                             Run.one Run.disk) eq_refl eq_refl)).
    reflexivity.
Defined.

(** ** C7: the duration probe *)

(** C7 fails on this path of the code: when the probe exits with code 0
    and [float] refuses its output, the handler of line 51 catches the
    [ValueError] and reads [e.stderr], which a [ValueError] has not; the
    [AttributeError] of that read is what the caller gets, and it is none
    of the error kinds. *)
Theorem unparsable_probe_output env input_file chunk_size_mb f r w' argv pr :
  split_audio_by_size env input_file chunk_size_mb (boot f) = (r, w') ->
  ERunProbe argv pr ∈ trace w' ->
  pr_returncode pr = 0 ->
  float_of_str env (strip (pr_stdout pr)) = None ->
  r = inl AttributeError /\ error_kind AttributeError = None.
Proof.
  intros Hrun. revert argv pr.
  refine (wp_run _ _ (fun r w' => forall argv pr, ERunProbe argv pr ∈ trace w' ->
            pr_returncode pr = 0 -> float_of_str env (strip (pr_stdout pr)) = None ->
            r = inl AttributeError /\ _) _ _ _ Hrun).
  clear. unfold boot. wp_go.
  all: intros argv pr Hin Hrc Hparse; mem_inv.
  all: simplify_eq; eqb_inv; try done; try congruence.
Qed.

Lemma unparsable_probe_output_witness :
  (split_audio_by_size Run.no_duration Run.talk Run.one (boot Run.disk)).1
  = inl AttributeError.
Proof.
  destruct (split_audio_by_size Run.no_duration Run.talk Run.one (boot Run.disk))
    as [r w'] eqn:Hrun.
  refine (proj1 (unparsable_probe_output Run.no_duration Run.talk Run.one Run.disk
                   r w' (duration_cmd (Path_of Run.talk)) Run.probe_na
                   Hrun _ eq_refl eq_refl)).
  apply (f_equal (fun x => trace x.2 !! 5%nat)) in Hrun.
  apply (list_elem_of_lookup_2 _ 5%nat). cbn [snd] in Hrun. rewrite <- Hrun.
  vm_compute. reflexivity.
Defined.

(** ** C9: a duration of zero *)

Lemma zero_duration_division size total_duration chunk_size_mb :
  is_zero total_duration = true ->
  is_finite (of_Z size) = true ->
  compute_segment_duration size total_duration chunk_size_mb
  = inl ZeroDivisionError.
Proof.
  intros Hz Hfin. unfold compute_segment_duration, float_of_int, truediv, and_then.
  rewrite Hz. destruct (of_Z size); try discriminate; reflexivity.
Qed.

Lemma zero_duration_no_result size total_duration chunk_size_mb d :
  is_zero total_duration = true ->
  compute_segment_duration size total_duration chunk_size_mb <> inr d.
Proof.
  intros Hz. unfold compute_segment_duration, float_of_int, truediv, and_then.
  rewrite Hz. destruct (of_Z size); discriminate.
Qed.

(** C9: when the probe exits with code 0 and its output reads as a zero,
    no segment duration comes out of the calibration: nothing is returned
    and the fallback of line 83 is never reached.  Once the size of the
    calibration file has been measured (and is in the range of a double,
    as any file size is), line 78 divides it by zero and the
    [ZeroDivisionError] reaches the caller; it is none of the error
    kinds, and [main] does not catch it.  (A directory sitting at the
    path of the calibration file is excluded: removing it fails in the
    [finally] clause, and that failure would be the one raised.) *)
Theorem zero_duration_division_error
    env input_file chunk_size_mb f r w' argv pr z :
  split_audio_by_size env input_file chunk_size_mb (boot f) = (r, w') ->
  ERunProbe argv pr ∈ trace w' ->
  pr_returncode pr = 0 ->
  float_of_str env (strip (pr_stdout pr)) = Some z ->
  is_zero z = true ->
  (forall l, r <> inr l) /\
  (forall d, EPrint Stdout (TAnalysed d) ∉ trace w') /\
  (forall p size,
      EStat p (Some size) ∈ trace w' ->
      is_finite (of_Z (Z.of_N size)) = true ->
      (forall n, f !! temp_flac_path_of (Path_of input_file) = Some n ->
                 is_dir n = false) ->
      r = inl ZeroDivisionError /\
      error_kind ZeroDivisionError = None /\
      caught_by_main ZeroDivisionError = false).
Proof.
  intros Hrun. revert argv pr z.
  refine (wp_run _ _ (fun r w' => forall argv pr z, ERunProbe argv pr ∈ trace w' ->
            pr_returncode pr = 0 ->
            float_of_str env (strip (pr_stdout pr)) = Some z -> is_zero z = true ->
            (forall l, r <> inr l) /\
            (forall d, EPrint Stdout (TAnalysed d) ∉ trace w') /\
            (forall p size, EStat p (Some size) ∈ trace w' -> _ -> _ -> r = _ /\ _))
            _ _ _ Hrun).
  clear. unfold boot. wp_go.
  all: intros argv pr z Hin Hrc Hparse Hz; mem_inv.
  all: simplify_eq; eqb_inv; try done; try congruence.
  all: try (exfalso; eapply zero_duration_no_result; eassumption).
  all: split; [discriminate|]; split; [intros d' Hd'; mem_inv|].
  all: intros p size Hstat Hfin Hnodir; mem_inv; simplify_eq.
  all: try match goal with
       | D : is_dir ?m = true |- _ =>
           rewrite (Hnodir m) in D by (reflexivity || assumption); discriminate
       end.
  all: match goal with
       | H : compute_segment_duration _ _ _ = _ |- _ =>
           rewrite zero_duration_division in H by assumption; simplify_eq
       end.
  all: repeat split.
Qed.

Lemma zero_duration_division_error_witness :
  (split_audio_by_size Run.zero_duration Run.talk Run.one (boot Run.disk)).1
  = inl ZeroDivisionError.
Proof.
  destruct (split_audio_by_size Run.zero_duration Run.talk Run.one (boot Run.disk))
    as [r w'] eqn:Hrun.
  pose proof (zero_duration_division_error Run.zero_duration Run.talk Run.one
                Run.disk r w' (duration_cmd (Path_of Run.talk)) Run.probe_zero
                (S754_zero false) Hrun) as H.
  assert (Htrace : trace w'
            = trace (split_audio_by_size Run.zero_duration Run.talk Run.one
                       (boot Run.disk)).2) by (rewrite Hrun; reflexivity).
  destruct H as (_ & _ & H); [| reflexivity..|].
  - apply (list_elem_of_lookup_2 _ 5%nat). rewrite Htrace. vm_compute. reflexivity.
  - refine (proj1 (H (temp_flac_path_of (Path_of Run.talk)) 3200000%N _ eq_refl _)).
    + apply (list_elem_of_lookup_2 _ 8%nat). rewrite Htrace. vm_compute.
      reflexivity.
    + intros n Hn. vm_compute in Hn. discriminate.
Defined.

(** ** What the run leaves on disk *)

Lemma path_join_inj p a b : p // a = p // b -> a = b.
Proof.
  unfold path_join. intros H. injection H as H.
  apply app_inv_head in H. congruence.
Qed.

Lemma path_join_ne_self p a : p // a <> p.
Proof.
  intros H. apply (f_equal (fun q => length (parts q))) in H. cbn [parts path_join] in H.
  rewrite length_app in H. cbn [length] in H. lia.
Qed.

Lemma path_name_join p a : path_name (p // a) = a.
Proof. unfold path_name, path_join. cbn [parts]. apply last_last. Qed.

(** The calibration file is no segment: the names differ from their
    first character on. *)
Lemma temp_ne_segment src i :
  output_dir_of src // segment_name i <> temp_flac_path_of src.
Proof.
  unfold temp_flac_path_of. intros H. apply path_join_inj in H.
  unfold segment_name in H. discriminate H.
Qed.

Lemma write_segments_other dir l p : forall f,
  (forall i, dir // segment_name i <> p) ->
  write_segments dir l f !! p = f !! p.
Proof.
  unfold write_segments. induction l as [|[i size] l IH]; intros f Hp; simpl.
  - reflexivity.
  - rewrite IH by exact Hp. apply lookup_insert_ne, Hp.
Qed.

Lemma write_segments_keeps dir l p : forall f,
  is_Some (f !! p) -> is_Some (write_segments dir l f !! p).
Proof.
  unfold write_segments. induction l as [|[i size] l IH]; intros f Hp; simpl.
  - exact Hp.
  - apply IH. destruct (decide (dir // segment_name i = p)) as [->|Hne].
    + rewrite lookup_insert_eq. eauto.
    + rewrite lookup_insert_ne by exact Hne. exact Hp.
Qed.

Ltac fs_simpl :=
  cbn [fs trace];
  rewrite ?(write_segments_other _ _ _ _ (temp_ne_segment _)),
    ?(write_segments_other _ _ _ _ (fun i => path_join_ne_self _ (segment_name i))),
    ?lookup_delete_eq, ?lookup_insert_eq,
    ?(lookup_insert_ne _ _ _ _ (output_dir_ne_temp _)).

(** C5: the calibration file is gone when [split_audio_by_size] returns
    or raises.  If nothing is at its path when the run starts, nothing is
    there when it ends, on every path through the function; and once the
    calibration encode has been run, whether it succeeded or failed, the
    file is removed even if one was there before (a directory at that
    path apart, which [unlink] cannot remove). *)
Theorem temp_file_removed env input_file chunk_size_mb f r w' :
  split_audio_by_size env input_file chunk_size_mb (boot f) = (r, w') ->
  (f !! temp_flac_path_of (Path_of input_file) = None ->
   fs w' !! temp_flac_path_of (Path_of input_file) = None) /\
  (forall argv er,
      ERunEncode argv er ∈ trace w' ->
      (forall n, f !! temp_flac_path_of (Path_of input_file) = Some n ->
                 is_dir n = false) ->
      fs w' !! temp_flac_path_of (Path_of input_file) = None).
Proof.
  intros Hrun.
  refine (wp_run _ _ (fun r w' =>
            (f !! temp_flac_path_of (Path_of input_file) = None ->
             fs w' !! temp_flac_path_of (Path_of input_file) = None) /\
            (forall argv er, ERunEncode argv er ∈ trace w' ->
               (forall n, f !! temp_flac_path_of (Path_of input_file) = Some n ->
                          is_dir n = false) ->
               fs w' !! temp_flac_path_of (Path_of input_file) = None))
            _ _ _ Hrun).
  clear. unfold boot. wp_go.
  all: split; [intros Habsent | intros argv er Hin Hnodir; mem_inv].
  all: fs_simpl; try done; try congruence.
  all: try match goal with
       | D : is_dir ?m = true |- _ =>
           rewrite (Hnodir m) in D by congruence; discriminate
       end.
Qed.

Lemma temp_file_removed_witness :
  fs (split_audio_by_size Run.failing_segment Run.talk Run.one (boot Run.disk)).2
  !! temp_flac_path_of (Path_of Run.talk) = None.
Proof.
  destruct (split_audio_by_size Run.failing_segment Run.talk Run.one (boot Run.disk))
    as [r w'] eqn:Hrun.
  exact (proj1 (temp_file_removed Run.failing_segment Run.talk Run.one Run.disk
                  r w' Hrun) eq_refl).
Defined.

(** ** C10, C2: what is returned *)

Lemma elem_of_keys (m : gmap Path Node) p :
  p ∈ map fst (map_to_list m) <-> is_Some (m !! p).
Proof.
  rewrite list_elem_of_In, in_map_iff. split.
  - intros ([q n] & <- & Hin). apply list_elem_of_In, elem_of_map_to_list in Hin.
    simpl. eauto.
  - intros [n Hn]. exists (p, n). split; [reflexivity|].
    apply list_elem_of_In, elem_of_map_to_list, Hn.
Qed.

Lemma elem_of_glob (m : gmap Path Node) dir pattern p :
  p ∈ List.filter (glob_match dir pattern) (map fst (map_to_list m))
  <-> is_Some (m !! p) /\ glob_match dir pattern p = true.
Proof. rewrite list_elem_of_In, filter_In, <- list_elem_of_In, elem_of_keys. tauto. Qed.

Lemma elem_of_sorted s l : s ∈ sorted l <-> s ∈ l.
Proof. unfold sorted. rewrite merge_sort_Permutation. reflexivity. Qed.

(** The calibration file does not match the pattern of the chunks. *)
Lemma temp_not_globbed src :
  glob_match (output_dir_of src) "part_*.flac" (temp_flac_path_of src) = false.
Proof.
  unfold glob_match, entry_of. destruct (parts _); [reflexivity|].
  case_bool_decide; [|reflexivity].
  unfold temp_flac_path_of. rewrite path_name_join. reflexivity.
Qed.

(** What the run keeps, and what it enumerates. *)
Lemma enumeration_outcome env input_file chunk_size_mb f r w' :
  split_audio_by_size env input_file chunk_size_mb (boot f) = (r, w') ->
  (forall p, p <> temp_flac_path_of (Path_of input_file) ->
             is_Some (f !! p) -> is_Some (fs w' !! p)) /\
  (forall n, f !! output_dir_of (Path_of input_file) = Some n ->
             fs w' !! output_dir_of (Path_of input_file) = Some n) /\
  (forall found,
      EGlob (output_dir_of (Path_of input_file)) "part_*.flac" found ∈ trace w' ->
      r = inr (sorted (map path_str found)) /\
      found = List.filter
                (glob_match (output_dir_of (Path_of input_file)) "part_*.flac")
                (map fst (map_to_list (fs w')))).
Proof.
  intros Hrun.
  refine (wp_run _ _ (fun r w' => (forall p, p <> _ -> is_Some (f !! p) -> _) /\
            (forall n, f !! _ = Some n -> fs w' !! _ = Some n) /\
            (forall found, EGlob _ _ found ∈ trace w' -> r = _ /\ found = _))
            _ _ _ Hrun).
  clear. unfold boot. wp_go.
  all: split; [intros p Hp Hsome | split; [intros m Hm | intros found Hin; mem_inv]].
  all: cbn [fs trace]; try done; try congruence.
  all: try (simplify_eq; done).
  all: try (rewrite ?(write_segments_other _ _ _ _
                        (fun i => path_join_ne_self _ (segment_name i))),
              ?(lookup_delete_ne _ _ _ (not_eq_sym (output_dir_ne_temp _))),
              ?(lookup_insert_ne _ _ _ _ (not_eq_sym (output_dir_ne_temp _))),
              ?lookup_insert_eq; congruence).
  all: try (try apply write_segments_keeps;
            rewrite ?lookup_delete_ne by (apply not_eq_sym; exact Hp);
            rewrite ?lookup_insert_ne by (apply not_eq_sym; exact Hp);
            try (destruct (decide (output_dir_of (Path_of input_file) = p))
                   as [<-|Hne];
                 [rewrite lookup_insert_eq; eauto
                 |rewrite lookup_insert_ne by exact Hne]);
            exact Hsome).
Qed.

(** C10: [split_audio_by_size] removes nothing but its calibration file
    and leaves an output directory that exists as it is; when it comes
    to enumerate the directory, what it returns is, sorted, what is there
    that matches [part_*.flac], so a matching file that was there before
    the run is in the list. *)
Theorem output_directory_kept env input_file chunk_size_mb f r w' :
  split_audio_by_size env input_file chunk_size_mb (boot f) = (r, w') ->
  (forall p, p <> temp_flac_path_of (Path_of input_file) ->
             is_Some (f !! p) -> is_Some (fs w' !! p)) /\
  (forall n, f !! output_dir_of (Path_of input_file) = Some n ->
             fs w' !! output_dir_of (Path_of input_file) = Some n) /\
  (forall found,
      EGlob (output_dir_of (Path_of input_file)) "part_*.flac" found ∈ trace w' ->
      r = inr (sorted (map path_str found)) /\
      (forall p, p ∈ found <->
                 is_Some (fs w' !! p) /\
                 glob_match (output_dir_of (Path_of input_file)) "part_*.flac" p
                 = true) /\
      (forall p, is_Some (f !! p) ->
                 glob_match (output_dir_of (Path_of input_file)) "part_*.flac" p
                 = true ->
                 exists l, r = inr l /\ path_str p ∈ l)).
Proof.
  intros Hrun.
  destruct (enumeration_outcome _ _ _ _ _ _ Hrun) as (Hkeep & Hdir & Hglob).
  split; [exact Hkeep|]. split; [exact Hdir|].
  intros found Hin. destruct (Hglob found Hin) as [-> ->].
  split; [reflexivity|]. split; [intros p; apply elem_of_glob|].
  intros p Hsome Hmatch. eexists. split; [reflexivity|].
  apply elem_of_sorted, list_elem_of_fmap_2, elem_of_glob. split; [|exact Hmatch].
  apply Hkeep; [|exact Hsome]. intros ->. rewrite temp_not_globbed in Hmatch.
  discriminate.
Qed.

Lemma output_directory_kept_witness :
  exists l,
    (split_audio_by_size Run.happy Run.talk Run.one (boot Run.used_disk)).1 = inr l /\
    path_str Run.old_chunk ∈ l.
Proof.
  destruct (split_audio_by_size Run.happy Run.talk Run.one (boot Run.used_disk))
    as [r w'] eqn:Hrun.
  assert (Hw : w' = (split_audio_by_size Run.happy Run.talk Run.one
                       (boot Run.used_disk)).2) by (rewrite Hrun; reflexivity).
  refine (proj2 (proj2 (proj2 (proj2 (output_directory_kept Run.happy Run.talk
                                        Run.one Run.used_disk r w' Hrun))
                          (List.filter
                             (glob_match (output_dir_of (Path_of Run.talk))
                                "part_*.flac")
                             (map fst (map_to_list (fs w')))) _))
            Run.old_chunk _ eq_refl).
  - apply (list_elem_of_lookup_2 _ 18%nat). rewrite Hw. vm_compute. reflexivity.
  - vm_compute. eauto.
Defined.

Lemma fnmatch_star_suffix pat mid rest :
  fnmatch pat rest = true -> fnmatch (String "*" pat) (mid +:+ rest) = true.
Proof.
  intros H. induction mid as [|c mid IH].
  - change ("" +:+ rest) with rest. destruct rest; cbn; rewrite H; reflexivity.
  - change (String c mid +:+ rest) with (String c (mid +:+ rest)).
    cbn in IH |- *. rewrite IH. apply orb_true_r.
Qed.










(** ** C8: the order of the chunks *)

Lemma compare_app_same pre a b :
  String.compare (pre +:+ a) (pre +:+ b) = String.compare a b.
Proof.
  induction pre as [|c pre IH]; [reflexivity|].
  change (String.compare (String c (pre +:+ a)) (String c (pre +:+ b))
          = String.compare a b).
  cbn [String.compare]. unfold Ascii.compare.
  rewrite N.compare_refl. exact IH.
Qed.

Lemma le_app_same pre a b : String.le (pre +:+ a) (pre +:+ b) <-> String.le a b.
Proof. unfold String.le, String.leb. rewrite compare_app_same. reflexivity. Qed.

Lemma string_app_assoc (a b c : string) : a +:+ b +:+ c = (a +:+ b) +:+ c.
Proof.
  induction a as [|x a IH]; [reflexivity|].
  change (String x (a +:+ b +:+ c) = String x ((a +:+ b) +:+ c)). f_equal. exact IH.
Qed.

(** Whatever the directory, [str(dir / name)] is one prefix followed by
    the name. *)
Lemma path_str_join dir : exists pre, forall name, path_str (dir // name) = pre +:+ name.
Proof.
  assert (Hjoin : forall l, exists pre, forall name,
             join_slash (l ++ [name]) = pre +:+ name).
  { induction l as [|c l [pre IH]].
    - exists "". reflexivity.
    - exists (c +:+ "/" +:+ pre). intros name.
      change (join_slash ((c :: l) ++ [name]))
        with (match l ++ [name] with
              | [] => c
              | _ => c +:+ "/" +:+ join_slash (l ++ [name])
              end).
      destruct (l ++ [name]) eqn:E; [destruct l; discriminate|].
      rewrite <- E, IH, <- !string_app_assoc. reflexivity. }
  destruct (Hjoin (parts dir)) as [pre Hpre].
  exists (root_str (root dir) +:+ pre). intros name.
  unfold path_str. cbn [path_join parts root].
  destruct (parts dir ++ [name]) eqn:E; [destruct (parts dir); discriminate|].
  rewrite <- E, Hpre, string_app_assoc. reflexivity.
Qed.

(** Below 1000, each chunk name is before the next one. *)
Lemma segment_name_step :
  forallb (fun i => String.leb (segment_name i) (segment_name (S i))) (seq 0 999)
  = true.
Proof. vm_compute. reflexivity. Qed.

Lemma segment_name_mono i j :
  (i <= j)%nat -> (j < 1000)%nat -> String.le (segment_name i) (segment_name j).
Proof.
  intros Hij Hj. induction Hij as [|j Hij IH].
  - reflexivity.
  - etrans; [apply IH; lia|].
    pose proof segment_name_step as H. rewrite forallb_forall in H.
    apply Is_true_true, H, in_seq. lia.
Qed.

Lemma chunk_path_mono dir i j :
  (i <= j)%nat -> (j < 1000)%nat -> String.le (chunk_path dir i) (chunk_path dir j).
Proof.
  intros Hij Hj. unfold chunk_path. destruct (path_str_join dir) as [pre Hpre].
  rewrite !Hpre. apply le_app_same, segment_name_mono; assumption.
Qed.

Lemma chunk_paths_sorted dir l :
  Forall (fun i => (i < 1000)%nat) l ->
  StronglySorted le l ->
  Sorted String.le (map (chunk_path dir) l).
Proof.
  intros Hall Hsorted. induction Hsorted as [|i l Hl IH Hhd]; [constructor|].
  apply Forall_cons in Hall as [Hi Hall]. cbn [map]. constructor; [apply IH, Hall|].
  destruct l as [|j l]; constructor.
  apply chunk_path_mono.
  - apply (Forall_inv Hhd).
  - apply (Forall_inv Hall).
Qed.

(** To sort a permutation of the chunk paths is to sort the indices. *)
Lemma sorted_chunk_paths dir (names : list string) idxs :
  names ≡ₚ map (chunk_path dir) idxs ->
  Forall (fun i => (i < 1000)%nat) idxs ->
  sorted names = map (chunk_path dir) (merge_sort le idxs).
Proof.
  intros Hperm Hall. unfold sorted.
  apply (Sorted_unique String.le).
  - apply Sorted_merge_sort. apply _.
  - apply chunk_paths_sorted.
    + rewrite merge_sort_Permutation. exact Hall.
    + apply StronglySorted_merge_sort; apply _.
  - rewrite merge_sort_Permutation, Hperm.
    apply Permutation_map. symmetry. apply merge_sort_Permutation.
Qed.

(** C8: for chunk names [part_NNN.flac] with indices below 1000, the
    lexicographic sort of the paths is the sort by index; and when the
    files enumerated by [split_audio_by_size] are such chunks, the list
    it returns is these chunks by ascending index. *)
Theorem chunks_in_numeric_order :
  (forall dir idxs,
      Forall (fun i => (i < 1000)%nat) idxs ->
      sorted (map (chunk_path dir) idxs)
      = map (chunk_path dir) (merge_sort le idxs) /\
      Sorted le (merge_sort le idxs)) /\
  (forall env input_file chunk_size_mb f r w' found idxs,
      split_audio_by_size env input_file chunk_size_mb (boot f) = (r, w') ->
      EGlob (output_dir_of (Path_of input_file)) "part_*.flac" found ∈ trace w' ->
      found ≡ₚ map (fun i => output_dir_of (Path_of input_file) // segment_name i)
                 idxs ->
      Forall (fun i => (i < 1000)%nat) idxs ->
      r = inr (map (chunk_path (output_dir_of (Path_of input_file)))
                 (merge_sort le idxs))).
Proof.
  split.
  - intros dir idxs Hall. split.
    + apply sorted_chunk_paths; [reflexivity | exact Hall].
    + apply Sorted_merge_sort. apply _.
  - intros env input_file chunk_size_mb f r w' found idxs Hrun Hin Hperm Hall.
    destruct (enumeration_outcome _ _ _ _ _ _ Hrun) as (_ & _ & Hglob).
    destruct (Hglob found Hin) as [-> _]. f_equal.
    apply sorted_chunk_paths; [|exact Hall].
    rewrite Hperm, map_map. reflexivity.
Qed.

Lemma chunks_in_numeric_order_witness :
  sorted (map (chunk_path (output_dir_of (Path_of Run.talk))) [2; 0; 3; 1]%nat)
  = map (chunk_path (output_dir_of (Path_of Run.talk))) [0; 1; 2; 3]%nat /\
  (split_audio_by_size Run.happy Run.talk Run.one (boot Run.disk)).1
  = inr (map (chunk_path (output_dir_of (Path_of Run.talk))) [0; 1; 2; 3]%nat).
Proof.
  split.
  - refine (proj1 (proj1 chunks_in_numeric_order (output_dir_of (Path_of Run.talk))
                     [2; 0; 3; 1]%nat _)).
    repeat constructor.
  - destruct (split_audio_by_size Run.happy Run.talk Run.one (boot Run.disk))
      as [r w'] eqn:Hrun.
    assert (Hw : w' = (split_audio_by_size Run.happy Run.talk Run.one
                         (boot Run.disk)).2) by (rewrite Hrun; reflexivity).
    refine (proj2 chunks_in_numeric_order Run.happy Run.talk Run.one Run.disk r w'
              (List.filter (glob_match (output_dir_of (Path_of Run.talk)) "part_*.flac")
                 (map fst (map_to_list (fs w'))))
              [3; 2; 1; 0]%nat Hrun _ _ _).
    + apply (list_elem_of_lookup_2 _ 18%nat). rewrite Hw. vm_compute. reflexivity.
    + rewrite Hw. vm_compute. reflexivity.
    + repeat constructor.
Defined.

(** * Further properties of the script *)

(** ** The failure paths of the probe and of the calibration *)

(** X1: when the duration probe exits with a code other than 0 and what
    it wrote decodes, the caller gets the probe-failure [RuntimeError];
    its message carries what the probe wrote on stderr, or the
    [CalledProcessError] itself when that is empty ([e.stderr or e]), and
    [main] ends with status 1.  When what it wrote does not decode in
    the encoding of the locale, [subprocess.run] raises
    [UnicodeDecodeError] before it looks at the exit code; line 51
    catches it as a [ValueError], and the caller gets the
    [AttributeError] of the read of [e.stderr], which [main] does not
    catch.  In both cases no encode is started. *)
Theorem probe_exit_failure env input_file chunk_size_mb f r w' argv pr :
  split_audio_by_size env input_file chunk_size_mb (boot f) = (r, w') ->
  ERunProbe argv pr ∈ trace w' ->
  pr_returncode pr <> 0 ->
  (pr_decodes pr = true ->
   r = inl (RuntimeError
              (MsgDurationError
                 (if String.eqb (pr_stderr pr) "" then
                    inr (mkCalledProcess (pr_returncode pr) argv (Str (pr_stderr pr)))
                  else inl (Str (pr_stderr pr))))) /\
   (forall e, r = inl e -> error_kind e = Some ProbeFailure) /\
   exit_status (main env input_file chunk_size_mb (boot f)).1 = 1) /\
  (pr_decodes pr = false ->
   r = inl AttributeError /\
   (main env input_file chunk_size_mb (boot f)).1 = inl AttributeError) /\
  (forall e, e ∈ trace w' -> is_spawn e = true -> e = ERunProbe argv pr).
Proof.
  intros Hrun Hin Hrc. rewrite (main_run _ _ _ _ _ _ Hrun). revert argv pr Hin Hrc.
  refine (wp_run _ _ (fun r w' => forall argv pr, ERunProbe argv pr ∈ trace w' ->
            pr_returncode pr <> 0 ->
            (pr_decodes pr = true ->
             r = inl (RuntimeError (MsgDurationError _)) /\
             (forall e, r = inl e -> error_kind e = Some ProbeFailure) /\
             exit_status (match r with
                          | inr l => (inr tt, mkWorld (fs w') (trace w' ++ listing l))
                          | inl e => if caught_by_main e
                                     then (inl (SystemExit 1),
                                           mkWorld (fs w')
                                             (trace w' ++ [EPrint Stderr (TCritical e)]))
                                     else (inl e, w')
                          end).1 = 1) /\
            (pr_decodes pr = false ->
             r = inl AttributeError /\
             (match r with
              | inr l => (inr tt, mkWorld (fs w') (trace w' ++ listing l))
              | inl e => if caught_by_main e
                         then (inl (SystemExit 1),
                               mkWorld (fs w')
                                 (trace w' ++ [EPrint Stderr (TCritical e)]))
                         else (inl e, w')
              end).1 = inl AttributeError) /\
            (forall e, e ∈ trace w' -> is_spawn e = true -> e = ERunProbe argv pr))
            _ _ _ Hrun).
  clear. unfold boot. wp_go.
  all: intros argv pr Hin Hrc; mem_inv.
  all: simplify_eq; eqb_inv; try done.
  all: unfold truthy in *; cbn [cp_stderr] in *.
  all: try destruct (String.eqb (pr_stderr _) ""); try discriminate.
  all: (split; [intros Hdec; try congruence|split; [intros Hdec; try congruence|]]).
  all: try (repeat split; try (intros e He; simplify_eq; reflexivity); fail).
  all: intros e He Hspawn; mem_inv; simplify_eq; try discriminate; reflexivity.
Qed.

Lemma probe_exit_failure_witness :
  (split_audio_by_size
     (Run.env_of Run.all_tools Run.probe_failed Run.encode_ok Run.segment_ok)
     Run.talk Run.one (boot Run.disk)).1
  = inl (RuntimeError
           (MsgDurationError
              (inl (Str "talk.mp4: Invalid data found when processing input")))) /\
  (split_audio_by_size
     (Run.env_of Run.all_tools Run.probe_garbled Run.encode_ok Run.segment_ok)
     Run.talk Run.one (boot Run.disk)).1
  = inl AttributeError.
Proof.
  split.
  - destruct (split_audio_by_size _ Run.talk Run.one (boot Run.disk))
      as [r w'] eqn:Hrun.
    assert (Hw : w' = (split_audio_by_size
                         (Run.env_of Run.all_tools Run.probe_failed Run.encode_ok
                            Run.segment_ok) Run.talk Run.one (boot Run.disk)).2)
      by (rewrite Hrun; reflexivity).
    refine (proj1 (proj1 (probe_exit_failure _ Run.talk Run.one Run.disk r w'
                            (duration_cmd (Path_of Run.talk)) Run.probe_failed
                            Hrun _ _) eq_refl)).
    + apply (list_elem_of_lookup_2 _ 5%nat). rewrite Hw. vm_compute. reflexivity.
    + discriminate.
  - destruct (split_audio_by_size _ Run.talk Run.one (boot Run.disk))
      as [r w'] eqn:Hrun.
    assert (Hw : w' = (split_audio_by_size
                         (Run.env_of Run.all_tools Run.probe_garbled Run.encode_ok
                            Run.segment_ok) Run.talk Run.one (boot Run.disk)).2)
      by (rewrite Hrun; reflexivity).
    refine (proj1 (proj1 (proj2 (probe_exit_failure _ Run.talk Run.one Run.disk r w'
                                   (duration_cmd (Path_of Run.talk))
                                   Run.probe_garbled Hrun _ _)) eq_refl)).
    + apply (list_elem_of_lookup_2 _ 5%nat). rewrite Hw. vm_compute. reflexivity.
    + discriminate.
Defined.

(** X2: when the calibration encode exits with a code other than 0, the
    caller gets the encode-failure [RuntimeError] with the encoder's
    messages, or the [UnicodeDecodeError] of line 88 when these are not
    valid UTF-8; the size of the file is never measured and the
    segmenting encode is never started.  (A directory at the path of the
    calibration file is excluded, as its removal fails.) *)
Theorem calibration_failure env input_file chunk_size_mb f r w' argv er :
  split_audio_by_size env input_file chunk_size_mb (boot f) = (r, w') ->
  ERunEncode argv er ∈ trace w' ->
  er_returncode er <> 0 ->
  (forall n, f !! temp_flac_path_of (Path_of input_file) = Some n ->
             is_dir n = false) ->
  r = inl (match er_stderr er with
           | Some text => RuntimeError (MsgAnalysisError text)
           | None => UnicodeDecodeError
           end) /\
  (forall p size, EStat p size ∉ trace w') /\
  (forall argv' sr, EPopen argv' sr ∉ trace w').
Proof.
  intros Hrun. revert argv er.
  refine (wp_run _ _ (fun r w' => forall argv er, ERunEncode argv er ∈ trace w' ->
            er_returncode er <> 0 ->
            (forall n, f !! temp_flac_path_of (Path_of input_file) = Some n ->
                       is_dir n = false) ->
            r = inl _ /\ (forall p size, EStat p size ∉ trace w') /\
            (forall argv' sr, EPopen argv' sr ∉ trace w')) _ _ _ Hrun).
  clear. unfold boot. wp_go.
  all: intros argv er Hin Hrc Hnodir; mem_inv.
  all: simplify_eq; eqb_inv; try done.
  all: try match goal with
       | D : is_dir ?m = true |- _ =>
           rewrite (Hnodir m) in D by congruence; discriminate
       end.
  all: repeat split;
    try (intros ? ? Hmem; mem_inv);
    try match goal with H : er_stderr _ = _ |- _ => rewrite H end;
    reflexivity.
Qed.

Lemma calibration_failure_witness :
  (split_audio_by_size
     (Run.env_of Run.all_tools Run.probe_100s Run.encode_failed Run.segment_ok)
     Run.talk Run.one (boot Run.disk)).1
  = inl (RuntimeError (MsgAnalysisError "Output file does not contain any stream")).
Proof.
  destruct (split_audio_by_size _ Run.talk Run.one (boot Run.disk))
    as [r w'] eqn:Hrun.
  assert (Hw : w' = (split_audio_by_size
                       (Run.env_of Run.all_tools Run.probe_100s Run.encode_failed
                          Run.segment_ok) Run.talk Run.one (boot Run.disk)).2)
    by (rewrite Hrun; reflexivity).
  refine (proj1 (calibration_failure _ Run.talk Run.one Run.disk r w'
                   (analyze_cmd (Path_of Run.talk)
                      (temp_flac_path_of (Path_of Run.talk)))
                   Run.encode_failed Hrun _ _ _)).
  - apply (list_elem_of_lookup_2 _ 7%nat). rewrite Hw. vm_compute. reflexivity.
  - discriminate.
  - intros n Hn. vm_compute in Hn. discriminate.
Defined.

(** ** The output directory *)

(** X3: when the path of the output directory is taken by a file, the
    [mkdir] of line 37 raises [FileExistsError]: nothing is written, no
    tool is started, and [main], which does not catch it, ends on the
    traceback. *)
Theorem output_path_is_a_file env input_file chunk_size_mb f n :
  which env "ffmpeg" && which env "ffprobe" = true ->
  is_regular (f !! Path_of input_file) = true ->
  f !! output_dir_of (Path_of input_file) = Some n ->
  is_dir n = false ->
  split_audio_by_size env input_file chunk_size_mb (boot f)
  = (inl (FileExistsError (output_dir_of (Path_of input_file))),
     mkWorld f [EWhich "ffmpeg" true; EWhich "ffprobe" true;
                EIsFile (Path_of input_file) true;
                EMkdir (output_dir_of (Path_of input_file))]) /\
  (main env input_file chunk_size_mb (boot f)).1
  = inl (FileExistsError (output_dir_of (Path_of input_file))).
Proof.
  intros Hfound Hfile Hout Hdir.
  apply andb_true_iff in Hfound as [Hffmpeg Hffprobe].
  assert (Hrun : split_audio_by_size env input_file chunk_size_mb (boot f)
                 = (inl (FileExistsError (output_dir_of (Path_of input_file))),
                    mkWorld f [EWhich "ffmpeg" true; EWhich "ffprobe" true;
                               EIsFile (Path_of input_file) true;
                               EMkdir (output_dir_of (Path_of input_file))])).
  { unfold split_audio_by_size, tools_missing, shutil_which, is_file,
      mkdir_exist_ok, boot.
    cbv [bind ret raise log get_fs]. cbn [fs trace app].
    rewrite Hffmpeg. cbn [negb]. rewrite Hffprobe. cbn [negb fs trace app].
    rewrite Hfile. cbn [negb fs trace app]. rewrite Hout, Hdir. reflexivity. }
  split; [exact Hrun|]. rewrite (main_run _ _ _ _ _ _ Hrun). reflexivity.
Qed.

Lemma output_path_is_a_file_witness :
  (split_audio_by_size Run.happy Run.talk Run.one
     (boot (<[output_dir_of (Path_of Run.talk) := regular 0]> Run.disk))).1
  = inl (FileExistsError (output_dir_of (Path_of Run.talk))).
Proof.
  exact (f_equal fst
           (proj1 (output_path_is_a_file Run.happy Run.talk Run.one
                     (<[output_dir_of (Path_of Run.talk) := regular 0]> Run.disk)
                     (regular 0)
                     ltac:(vm_compute; reflexivity) ltac:(vm_compute; reflexivity)
                     ltac:(vm_compute; reflexivity) ltac:(vm_compute; reflexivity)))).
Defined.

(** X4: once the checks are passed and the [mkdir] of line 37 has succeeded,
    the output directory is on disk for the rest of the run and after
    it: as it was when it existed, as a new directory otherwise. *)
Theorem output_directory_exists env input_file chunk_size_mb f r w' :
  split_audio_by_size env input_file chunk_size_mb (boot f) = (r, w') ->
  EPrint Stdout (TOutputDir (output_dir_of (Path_of input_file))) ∈ trace w' ->
  fs w' !! output_dir_of (Path_of input_file)
  = Some (default directory (f !! output_dir_of (Path_of input_file))) /\
  is_dir (default directory (f !! output_dir_of (Path_of input_file))) = true.
Proof.
  intros Hrun.
  refine (wp_run _ _ (fun r w' => EPrint Stdout (TOutputDir _) ∈ trace w' ->
            fs w' !! _ = Some (default directory (f !! _)) /\ _) _ _ _ Hrun).
  clear. unfold boot. wp_go.
  all: intros Hin; mem_inv.
  all: cbn [fs];
    rewrite ?(write_segments_other _ _ _ _
                (fun i => path_join_ne_self _ (segment_name i))),
      ?(lookup_delete_ne _ _ _ (not_eq_sym (output_dir_ne_temp _))),
      ?(lookup_insert_ne _ _ _ _ (not_eq_sym (output_dir_ne_temp _))),
      ?lookup_insert_eq.
  all: repeat match goal with
       | H : _ !! output_dir_of _ = _ |- _ => rewrite H
       end; cbn [default]; split; (reflexivity || assumption).
Qed.

Lemma output_directory_exists_witness :
  fs (split_audio_by_size Run.failing_segment Run.talk Run.one (boot Run.disk)).2
  !! output_dir_of (Path_of Run.talk) = Some directory.
Proof.
  destruct (split_audio_by_size Run.failing_segment Run.talk Run.one (boot Run.disk))
    as [r w'] eqn:Hrun.
  assert (Hw : w' = (split_audio_by_size Run.failing_segment Run.talk Run.one
                       (boot Run.disk)).2) by (rewrite Hrun; reflexivity).
  refine (proj1 (output_directory_exists Run.failing_segment Run.talk Run.one
                   Run.disk r w' Hrun _)).
  apply (list_elem_of_lookup_2 _ 4%nat). rewrite Hw. vm_compute. reflexivity.
Defined.

(** ** The segment duration handed to the segmenting encode *)

(** X5: whatever the operands (negative, zero, infinite, not a number), a
    segment duration that comes out of lines 79-83 is at least 1: the
    floor of the quotient when that is at least 1, and 60 otherwise. *)
Theorem segment_duration_at_least_one chunk_size_mb bytes_per_second d :
  segment_duration_for chunk_size_mb bytes_per_second = inr d ->
  1 <= d /\
  exists n,
    math_floor (div (mul (mul chunk_size_mb f1024) f1024) bytes_per_second) = inr n /\
    ((1 <= n /\ d = n) \/ (n <= 0 /\ d = 60)).
Proof.
  unfold segment_duration_for, truediv, and_then, fallback_segment_duration.
  destruct (is_zero bytes_per_second); [discriminate|].
  destruct (math_floor _) as [e|n]; [discriminate|].
  intros [= <-]. destruct (n <=? 0) eqn:E.
  - apply Z.leb_le in E. split; [lia|]. exists n. split; [reflexivity|]. right. lia.
  - apply Z.leb_gt in E. split; [lia|]. exists n. split; [reflexivity|]. left. lia.
Qed.

Lemma segment_duration_at_least_one_witness :
  segment_duration_for (of_Z 1) (of_Z (-32000)) = inr 60 /\ 1 <= 60.
Proof.
  split; [reflexivity|].
  exact (proj1 (segment_duration_at_least_one (of_Z 1) (of_Z (-32000)) 60 eq_refl)).
Defined.

Lemma compute_segment_duration_positive size total_duration chunk_size_mb d :
  compute_segment_duration size total_duration chunk_size_mb = inr d -> 1 <= d.
Proof.
  unfold compute_segment_duration, and_then.
  destruct (float_of_int size); [discriminate|].
  destruct (truediv _ _) as [e|bytes_per_second]; [discriminate|].
  unfold segment_duration_for, truediv, and_then, fallback_segment_duration.
  destruct (is_zero bytes_per_second); [discriminate|].
  destruct (math_floor _) as [e|n]; [discriminate|].
  intros [= <-]. destruct (n <=? 0) eqn:E; [lia|]. apply Z.leb_gt in E. lia.
Qed.

(** X6: the segmenting encode is started at most once, with the command of
    lines 97-108 for the source and the pattern [part_%03d.flac] of the
    output directory, and with a [-segment_time] that is the duration
    announced on line 85, an integer that is at least 1. *)
Theorem segmenter_command env input_file chunk_size_mb f r w' argv sr :
  split_audio_by_size env input_file chunk_size_mb (boot f) = (r, w') ->
  EPopen argv sr ∈ trace w' ->
  exists d,
    1 <= d /\
    EPrint Stdout (TAnalysed d) ∈ trace w' /\
    argv = split_cmd (Path_of input_file) d
             (output_dir_of (Path_of input_file) // "part_%03d.flac") /\
    argv !! 14%nat = Some (str_int d) /\
    (forall argv' sr', EPopen argv' sr' ∈ trace w' -> argv' = argv /\ sr' = sr).
Proof.
  intros Hrun. revert argv sr.
  refine (wp_run _ _ (fun r w' => forall argv sr, EPopen argv sr ∈ trace w' ->
            exists d, 1 <= d /\ EPrint Stdout (TAnalysed d) ∈ trace w' /\ argv = _ /\
              argv !! 14%nat = Some (str_int d) /\
              (forall argv' sr', EPopen argv' sr' ∈ trace w' -> argv' = argv /\ sr' = sr))
            _ _ _ Hrun).
  clear. unfold boot. wp_go.
  all: intros argv sr Hin; mem_inv.
  all: simplify_eq.
  all: match goal with
       | H : compute_segment_duration _ _ _ = inr ?d |- _ =>
           exists d; split; [exact (compute_segment_duration_positive _ _ _ _ H)|]
       end.
  all: split; [eapply (list_elem_of_lookup_2 _ 9%nat); reflexivity|].
  all: split; [reflexivity|]. all: split; [reflexivity|].
  all: intros argv' sr' Hin'; mem_inv; simplify_eq; split; reflexivity.
Qed.

Lemma segmenter_command_witness :
  exists d, 1 <= d /\
    split_cmd (Path_of Run.talk) 32
      (output_dir_of (Path_of Run.talk) // "part_%03d.flac")
    = split_cmd (Path_of Run.talk) d
        (output_dir_of (Path_of Run.talk) // "part_%03d.flac").
Proof.
  destruct (split_audio_by_size Run.happy Run.talk Run.one (boot Run.disk))
    as [r w'] eqn:Hrun.
  assert (Hw : w' = (split_audio_by_size Run.happy Run.talk Run.one
                       (boot Run.disk)).2) by (rewrite Hrun; reflexivity).
  destruct (segmenter_command Run.happy Run.talk Run.one Run.disk r w'
              (split_cmd (Path_of Run.talk) 32
                 (output_dir_of (Path_of Run.talk) // "part_%03d.flac"))
              Run.segment_ok Hrun) as (d & Hd & _ & Hargv & _).
  - apply (list_elem_of_lookup_2 _ 13%nat). rewrite Hw. vm_compute. reflexivity.
  - exists d. split; [exact Hd | exact Hargv].
Defined.

(** ** The pattern of line 143 *)

Lemma fnmatch_star_inv pat s :
  fnmatch (String "*" pat) s = true ->
  exists mid rest, s = mid +:+ rest /\ fnmatch pat rest = true.
Proof.
  induction s as [|c s IH]; cbn; intros H.
  - apply orb_true_iff in H as [H|H]; [|discriminate]. exists "", "". auto.
  - apply orb_true_iff in H as [H|H].
    + exists "", (String c s). auto.
    + destruct (IH H) as (mid & rest & -> & Hrest).
      exists (String c mid), rest. auto.
Qed.

Lemma fnmatch_literal lit s : fnmatch lit s = true -> NoStar lit -> s = lit.
Proof.
  intros H Hlit. revert s H. induction Hlit as [|c lit Hc Hlit IH]; intros s H.
  - cbn in H. apply String.eqb_eq in H. exact H.
  - cbn in H. rewrite Hc in H. destruct s as [|d s]; [discriminate|].
    apply andb_true_iff in H as [Hd Hs]. apply Ascii.eqb_eq in Hd as ->.
    f_equal. apply IH, Hs.
Qed.

(** X7: a name matches [part_*.flac] exactly when it is ["part_"], anything,
    [".flac"]: the middle need not be a number, nor have three
    characters, and can be empty. *)
Theorem chunk_pattern_matches name :
  fnmatch "part_*.flac" name = true <->
  exists mid, name = "part_" +:+ mid +:+ ".flac".
Proof.
  split.
  - intros H.
    destruct name as [|c1 [|c2 [|c3 [|c4 [|c5 rest]]]]]; try discriminate H;
      try (cbn in H; rewrite ?andb_false_r in H; discriminate H).
    cbn [fnmatch] in H.
    change (Ascii.eqb "p" "*") with false in H.
    change (Ascii.eqb "a" "*") with false in H.
    change (Ascii.eqb "r" "*") with false in H.
    change (Ascii.eqb "t" "*") with false in H.
    change (Ascii.eqb "_" "*") with false in H.
    cbv iota in H.
    repeat (apply andb_true_iff in H as [?%Ascii.eqb_eq H]). subst.
    apply (fnmatch_star_inv ".flac") in H as (mid & tail & -> & Htail).
    apply fnmatch_literal in Htail as ->; [|repeat constructor].
    exists mid. reflexivity.
  - intros [mid ->].
    change ("part_" +:+ mid +:+ ".flac")
      with (String "p" (String "a" (String "r" (String "t" (String "_"
              (mid +:+ ".flac")))))).
    cbn [fnmatch].
    change (Ascii.eqb "p" "*") with false.
    change (Ascii.eqb "a" "*") with false.
    change (Ascii.eqb "r" "*") with false.
    change (Ascii.eqb "t" "*") with false.
    change (Ascii.eqb "_" "*") with false.
    cbv iota. rewrite !Ascii.eqb_refl. cbn [andb].
    apply (fnmatch_star_suffix ".flac"). reflexivity.
Qed.

(** ** The segments of a successful run *)



(** ** The source file *)

Lemma string_length_app (a b : string) :
  String.length (a +:+ b) = (String.length a + String.length b)%nat.
Proof.
  induction a as [|c a IH]; [reflexivity|].
  change (String c a +:+ b) with (String c (a +:+ b)). cbn. rewrite IH. reflexivity.
Qed.

Lemma rfind_dot_spec s : forall k j,
  rfind_dot k s = Some j -> (k <= j)%nat /\ String.get (j - k) s = Some dot.
Proof.
  induction s as [|c s IH]; intros k j H; cbn in H; [discriminate|].
  destruct (rfind_dot (S k) s) as [j'|] eqn:E.
  - injection H as <-. destruct (IH _ _ E) as [Hle Hget]. split; [lia|].
    replace (j' - k)%nat with (S (j' - S k)) by lia. exact Hget.
  - destruct (Ascii.eqb c dot) eqn:Hc; [|discriminate]. injection H as <-.
    apply Ascii.eqb_eq in Hc as ->. split; [lia|].
    rewrite Nat.sub_diag. reflexivity.
Qed.

Lemma substring_length i : forall s,
  (i <= String.length s)%nat -> String.length (String.substring 0 i s) = i.
Proof.
  induction i as [|i IH]; intros [|c s] H; cbn in *; try reflexivity; try lia.
  rewrite IH by lia. reflexivity.
Qed.

(** No name is its own stem followed by ["_chunks"]. *)
Lemma stem_chunks_ne_name p : path_stem p +:+ "_chunks" <> path_name p.
Proof.
  unfold path_stem. set (name := path_name p).
  assert (Hlen : name +:+ "_chunks" <> name).
  { intros H. apply (f_equal String.length) in H.
    rewrite string_length_app in H. cbn in H. lia. }
  destruct (rfind_dot 0 name) as [i|] eqn:E; [|exact Hlen].
  destruct ((0 <? i)%nat && (S i <? String.length name)%nat) eqn:Hi; [|exact Hlen].
  apply andb_true_iff in Hi as [_ Hi]. apply Nat.ltb_lt in Hi.
  destruct (rfind_dot_spec _ _ _ E) as [_ Hdot]. rewrite Nat.sub_0_r in Hdot.
  intros H.
  pose proof (String.append_correct2 (String.substring 0 i name) "_chunks" 0)
    as Hget.
  rewrite substring_length in Hget by lia. cbn [Nat.add] in Hget.
  rewrite H, Hdot in Hget. discriminate.
Qed.

Lemma output_dir_ne_source src : output_dir_of src <> src.
Proof.
  destruct src as [abs l]. unfold output_dir_of, path_join, path_parent.
  cbn [root parts]. intros H. injection H as H.
  destruct (decide (l = [])) as [->|Hne]; [discriminate|].
  destruct (exists_last Hne) as (l' & c & ->).
  rewrite removelast_last in H. apply app_inv_head in H. injection H as H.
  assert (Hname : path_name (mkPath abs (l' ++ [c])) = c)
    by (unfold path_name; cbn [parts]; apply last_last).
  apply (stem_chunks_ne_name (mkPath abs (l' ++ [c]))). rewrite Hname. exact H.
Qed.

Lemma inside_output_dir_ne_source src name : output_dir_of src // name <> src.
Proof.
  destruct src as [abs l]. unfold output_dir_of, path_join, path_parent.
  cbn [root parts]. intros H. injection H as H.
  apply (f_equal (@length _)) in H. rewrite !length_app in H. cbn [length] in H.
  destruct (decide (l = [])) as [->|Hne]; [cbn in H; lia|].
  destruct (exists_last Hne) as (l' & c & ->).
  rewrite removelast_last, length_app in H. cbn [length] in H. lia.
Qed.

(** X9: the paths that the run acts on are never the path of the source.
    The directory it creates is the output directory, the file it
    removes is the calibration file, the last argument of the
    calibration encode is the path of that file and the last argument of
    the segmenting encode is the pattern in the output directory; and
    the output directory, the calibration file and whatever lies in the
    output directory have paths other than the source's.  (Whether two
    paths name one file is a matter of the file system, and is not
    stated here.) *)
Theorem source_untouched env input_file chunk_size_mb f r w' e :
  split_audio_by_size env input_file chunk_size_mb (boot f) = (r, w') ->
  e ∈ trace w' ->
  match e with
  | EMkdir p => p = output_dir_of (Path_of input_file)
  | EUnlink p => p = temp_flac_path_of (Path_of input_file)
  | ERunEncode argv _ =>
      last argv = Some (path_str (temp_flac_path_of (Path_of input_file)))
  | EPopen argv _ =>
      last argv
      = Some (path_str (output_dir_of (Path_of input_file) // "part_%03d.flac"))
  | _ => True
  end /\
  output_dir_of (Path_of input_file) <> Path_of input_file /\
  temp_flac_path_of (Path_of input_file) <> Path_of input_file /\
  (forall name, output_dir_of (Path_of input_file) // name <> Path_of input_file).
Proof.
  intros Hrun Hin.
  split; [|split; [apply output_dir_ne_source
                  |split; [apply inside_output_dir_ne_source
                          |intros name; apply inside_output_dir_ne_source]]].
  revert e Hin.
  refine (wp_run _ _ (fun r w' => forall e, e ∈ trace w' -> match e with
                                                            | EMkdir p => _
                                                            | EUnlink p => _
                                                            | ERunEncode argv _ => _
                                                            | EPopen argv _ => _
                                                            | _ => True
                                                            end) _ _ _ Hrun).
  clear. unfold boot. wp_go.
  all: intros e Hin; mem_inv.
  all: try subst e; try exact I; reflexivity.
Qed.

Lemma source_untouched_witness :
  last (split_cmd (Path_of Run.talk) 32
          (output_dir_of (Path_of Run.talk) // "part_%03d.flac"))
  = Some "/media/talk_chunks/part_%03d.flac" /\
  output_dir_of (Path_of Run.talk) // "part_%03d.flac" <> Path_of Run.talk.
Proof.
  destruct (split_audio_by_size Run.happy Run.talk Run.one (boot Run.disk))
    as [r w'] eqn:Hrun.
  assert (Hw : w' = (split_audio_by_size Run.happy Run.talk Run.one
                       (boot Run.disk)).2) by (rewrite Hrun; reflexivity).
  run_trace Hw Ht.
  destruct (source_untouched Run.happy Run.talk Run.one Run.disk r w'
              (EPopen (split_cmd (Path_of Run.talk) 32
                         (output_dir_of (Path_of Run.talk) // "part_%03d.flac"))
                 Run.segment_ok) Hrun)
    as (Hlast & _ & _ & Hne).
  - apply (list_elem_of_lookup_2 _ 13%nat). rewrite Ht. reflexivity.
  - split; [exact Hlast | apply Hne].
Defined.

(** ** Past 999 chunks *)

Lemma segment_1000_before :
  forallb (fun i => String.leb (segment_name 1000) (segment_name i)
                    && negb (String.eqb (segment_name 1000) (segment_name i)))
    (seq 101 899) = true.
Proof. vm_compute. reflexivity. Qed.

(** X10: the pattern [%03d] pads but does not truncate, so chunk 1000 is
    [part_1000.flac], and the sort of line 143 puts it before every chunk
    from 101 to 999: with more than 1000 chunks the returned order is no
    longer the order of creation. *)
Theorem chunk_1000_sorts_early dir i :
  (101 <= i < 1000)%nat ->
  sorted [chunk_path dir i; chunk_path dir 1000]
  = [chunk_path dir 1000; chunk_path dir i] /\
  chunk_path dir 1000 <> chunk_path dir i.
Proof.
  intros Hi. pose proof segment_1000_before as H. rewrite forallb_forall in H.
  specialize (H i ltac:(apply in_seq; lia)).
  apply andb_true_iff in H as [Hle Hne]. apply negb_true_iff, String.eqb_neq in Hne.
  unfold chunk_path. destruct (path_str_join dir) as [pre Hpre]. rewrite !Hpre.
  split.
  - unfold sorted. apply (Sorted_unique String.le).
    + apply Sorted_merge_sort. apply _.
    + repeat constructor. apply le_app_same, Is_true_true, Hle.
    + rewrite merge_sort_Permutation. apply Permutation_swap.
  - intros Heq. apply Hne. revert Heq. apply String.app_inj.
Qed.

Lemma chunk_1000_sorts_early_witness :
  sorted [chunk_path (output_dir_of (Path_of Run.talk)) 999;
          chunk_path (output_dir_of (Path_of Run.talk)) 1000]
  = [chunk_path (output_dir_of (Path_of Run.talk)) 1000;
     chunk_path (output_dir_of (Path_of Run.talk)) 999].
Proof.
  exact (proj1 (chunk_1000_sorts_early (output_dir_of (Path_of Run.talk)) 999
                  ltac:(lia))).
Defined.

(** ** What a failed segmentation leaves behind *)



(** ** The progress markers *)

Lemma match_atoms_lit zeros l pat c s :
  match_atoms zeros (Lit l :: pat) (c :: s)
  = if (c =? l)%N then match_atoms zeros pat s else None.
Proof. reflexivity. Qed.

Lemma match_atoms_digit zeros pat c s :
  match_atoms zeros (Digit :: pat) (c :: s)
  = match digit_value zeros c with
    | Some d => cons d <$> match_atoms zeros pat s
    | None => None
    end.
Proof. reflexivity. Qed.

Lemma match_atoms_reject zeros a pat c s :
  accepts zeros a c = false -> match_atoms zeros (a :: pat) (c :: s) = None.
Proof.
  destruct a as [l|]; cbn; intros H.
  - rewrite H. reflexivity.
  - destruct (digit_value zeros c); [|reflexivity].
    apply bool_decide_eq_false in H. destruct H. eauto.
Qed.

Lemma match_atoms_step zeros a pat c s :
  match_atoms zeros (a :: pat) (c :: s) = None ->
  accepts zeros a c = false \/ match_atoms zeros pat s = None.
Proof.
  destruct a as [l|]; cbn.
  - destruct (c =? l)%N; auto.
  - destruct (digit_value zeros c) as [d|].
    + destruct (match_atoms zeros pat s); [discriminate | auto].
    + intros _. left. apply bool_decide_eq_false. intros [? ?]. discriminate.
Qed.

(** A match cannot start in a text where there is none and end in what
    follows, when what follows starts with a character that the pattern
    accepts at its first position only. *)
Lemma match_atoms_no_straddle zeros c pat : forall pre rest,
  Forall (fun a => accepts zeros a c = false) pat ->
  match_atoms zeros pat pre = None ->
  match_atoms zeros pat (pre ++ c :: rest) = None.
Proof.
  induction pat as [|a pat IH]; intros pre rest Hpat Hnone; [discriminate|].
  apply Forall_cons in Hpat as [Ha Hpat]. destruct pre as [|x pre].
  - apply match_atoms_reject, Ha.
  - cbn [app].
    destruct (match_atoms_step _ _ _ _ _ Hnone) as [Hx|Hrest].
    + apply match_atoms_reject, Hx.
    + specialize (IH pre rest Hpat Hrest).
      destruct a as [l|]; cbn.
      * destruct (x =? l)%N; [exact IH | reflexivity].
      * destruct (digit_value zeros x); [rewrite IH|]; reflexivity.
Qed.

Lemma search_time_skip zeros pre rest :
  search_time zeros pre = None ->
  search_time zeros (pre ++ code "t" :: rest) = search_time zeros (code "t" :: rest).
Proof.
  induction pre as [|x pre IH]; intros Hnone; [reflexivity|].
  cbn [app]. cbn [search_time] in Hnone |- *.
  destruct (match_atoms zeros time_pattern (x :: pre)) eqn:Hm; [discriminate|].
  assert (Hcat : match_atoms zeros time_pattern (x :: pre ++ code "t" :: rest) = None).
  { unfold time_pattern in *.
    destruct (match_atoms_step _ _ _ _ _ Hm) as [Hx|Hrest].
    - apply match_atoms_reject, Hx.
    - rewrite match_atoms_lit. destruct (x =? code "t")%N; [|reflexivity].
      apply match_atoms_no_straddle; [|exact Hrest].
      repeat constructor. }
  rewrite Hcat. apply IH, Hnone.
Qed.

Lemma digit_value_lt zeros c v : digit_value zeros c = Some v -> (v < 10)%nat.
Proof.
  unfold digit_value. destruct (c <? 128)%N.
  - destruct ((48 <=? c) && (c <=? 57))%N eqn:E; [|discriminate].
    intros [= <-]. apply andb_true_iff in E as [E1 E2].
    apply N.leb_le in E1, E2. lia.
  - destruct (List.find _ zeros) as [z|] eqn:E; [|discriminate].
    intros [= <-]. apply find_some in E as [_ E].
    apply andb_true_iff in E as [E1 E2].
    apply N.leb_le in E1. apply N.ltb_lt in E2. lia.
Qed.

Lemma digit_value_char zeros d :
  (d < 10)%nat -> digit_value zeros (digit_char d) = Some d.
Proof.
  intros H. do 10 (destruct d as [|d]; [reflexivity|]). lia.
Qed.

(** Beyond ASCII, the digits are those of the database. *)
Lemma digit_value_database zeros z k :
  z ∈ zeros -> (128 <= z)%N -> (k < 10)%N -> is_Some (digit_value zeros (z + k)).
Proof.
  intros Hz Hbig Hk. unfold digit_value.
  destruct (z + k <? 128)%N eqn:E; [apply N.ltb_lt in E; lia|].
  destruct (List.find _ zeros) as [z'|] eqn:Hfind; [eauto|].
  apply list_elem_of_In in Hz.
  pose proof (find_none _ _ Hfind z Hz) as Hno. cbn beta in Hno.
  apply andb_false_iff in Hno as [Hno|Hno].
  - apply N.leb_gt in Hno. lia.
  - apply N.ltb_ge in Hno. lia.
Qed.

Lemma two_digit_split a b :
  (b < 10)%nat -> ((10 * a + b) / 10 = a /\ (10 * a + b) mod 10 = b)%nat.
Proof.
  intros Hb. split; symmetry.
  - apply (Nat.div_unique _ 10 a b); lia.
  - apply (Nat.mod_unique _ 10 a b); lia.
Qed.

(** A marker at the start of a text is matched, digit by digit. *)
Lemma match_marker zeros ds vs post :
  Forall2 (fun d v => digit_value zeros d = Some v) ds vs ->
  length ds = 8%nat ->
  match_atoms zeros time_pattern (marker ds ++ post) = Some vs.
Proof.
  intros Hdigits Hlen.
  do 8 (destruct ds as [|? ds]; [discriminate Hlen|]).
  destruct ds; [|discriminate Hlen].
  repeat match goal with
         | H : Forall2 _ (_ :: _) _ |- _ =>
             apply Forall2_cons_inv_l in H as (? & ? & ? & H & ->)
         | H : Forall2 _ [] _ |- _ => apply Forall2_nil_inv_l in H as ->
         end.
  unfold marker, time_pattern. cbn [app].
  repeat first [ rewrite match_atoms_lit, N.eqb_refl
               | rewrite match_atoms_digit;
                 match goal with
                 | H : digit_value _ ?d = Some _ |- context [digit_value _ ?d] =>
                     rewrite H
                 end ].
  reflexivity.
Qed.

(** X12: a line yields a progress time exactly from a marker
    [time=ab:cd:ef.gh] whose eight characters are decimal digits: the
    first such marker of the line is the one that is read, and the four
    numbers that come out, all below 100, are those of its four pairs of
    digits.  The digits of ASCII always count, so that the marker the
    encoder prints for [h], [m], [s], [c] reads as these four numbers;
    and so do the decimal digits that the Unicode database gives beyond
    ASCII. *)
Theorem progress_time_marker zeros :
  (forall line h m s c,
      progress_time zeros line = Some (h, m, s, c) ->
      (h < 100 /\ m < 100 /\ s < 100 /\ c < 100)%nat /\
      exists pre post ds vs,
        line = pre ++ marker ds ++ post /\
        length ds = 8%nat /\
        Forall2 (fun d v => digit_value zeros d = Some v) ds vs /\
        groups vs = Some (h, m, s, c)) /\
  (forall pre post ds vs,
      Forall2 (fun d v => digit_value zeros d = Some v) ds vs ->
      length ds = 8%nat ->
      search_time zeros pre = None ->
      progress_time zeros (pre ++ marker ds ++ post) = groups vs) /\
  (forall pre post h m s c,
      (h < 100)%nat -> (m < 100)%nat -> (s < 100)%nat -> (c < 100)%nat ->
      search_time zeros pre = None ->
      progress_time zeros (pre ++ time_marker h m s c ++ post) = Some (h, m, s, c)) /\
  (forall z k,
      z ∈ zeros -> (128 <= z)%N -> (k < 10)%N ->
      is_Some (digit_value zeros (z + k))).
Proof.
  assert (Hread : forall pre post ds vs,
            Forall2 (fun d v => digit_value zeros d = Some v) ds vs ->
            length ds = 8%nat ->
            search_time zeros pre = None ->
            progress_time zeros (pre ++ marker ds ++ post) = groups vs).
  { intros pre post ds vs Hdigits Hlen Hpre. unfold progress_time.
    pose proof (match_marker zeros ds vs post Hdigits Hlen) as Hmatch.
    assert (Hhead : exists rest, marker ds ++ post = code "t" :: rest).
    { do 8 (destruct ds as [|? ds]; [discriminate Hlen|]).
      destruct ds; [|discriminate Hlen]. eexists. reflexivity. }
    destruct Hhead as [rest Hrest]. rewrite Hrest in Hmatch |- *.
    rewrite search_time_skip by exact Hpre.
    cbn [search_time]. rewrite Hmatch. reflexivity. }
  split; [|split; [exact Hread|split; [|apply digit_value_database]]].
  - intros line h m s c. unfold progress_time.
    destruct (search_time zeros line) as [vs|] eqn:Hsearch; [|discriminate].
    intros Hgroups.
    assert (Hfound : exists pre tail,
               line = pre ++ tail /\ match_atoms zeros time_pattern tail = Some vs).
    { clear Hgroups. induction line as [|x line IH].
      - cbn in Hsearch. discriminate.
      - cbn [search_time] in Hsearch.
        destruct (match_atoms zeros time_pattern (x :: line)) as [vs'|] eqn:Hm.
        + injection Hsearch as ->. exists [], (x :: line). auto.
        + destruct (IH Hsearch) as (pre & tail & -> & Htail).
          exists (x :: pre), tail. auto. }
    destruct Hfound as (pre & tail & -> & Htail). clear Hsearch.
    unfold time_pattern in Htail.
    do 16 (destruct tail as [|? tail]; [cbn in Htail; discriminate Htail|];
           first [ rewrite match_atoms_lit in Htail;
                   match type of Htail with
                   | context [(?a =? ?b)%N] =>
                       destruct (N.eqb_spec a b); [subst|discriminate Htail]
                   end
                 | rewrite match_atoms_digit in Htail;
                   match type of Htail with
                   | context [digit_value _ ?a] =>
                       let H := fresh "Hd" in
                       destruct (digit_value zeros a) eqn:H; [|discriminate Htail]
                   end ]).
    cbn in Htail. injection Htail as <-. cbn [groups] in Hgroups.
    injection Hgroups as <- <- <- <-.
    repeat match goal with
           | H : digit_value _ _ = Some _ |- _ =>
               let L := fresh "L" in
               pose proof (digit_value_lt _ _ _ H) as L; revert H
           end.
    intros. split; [lia|].
    eexists pre, tail, [_; _; _; _; _; _; _; _], [_; _; _; _; _; _; _; _].
    split; [reflexivity|]. split; [reflexivity|].
    split; [repeat constructor; eassumption | reflexivity].
  - intros pre post h m s c Hh Hm Hs Hc Hpre. unfold time_marker.
    rewrite (Hread pre post _
               [h / 10; h mod 10; m / 10; m mod 10; s / 10; s mod 10;
                c / 10; c mod 10]%nat); [| |reflexivity|exact Hpre].
    + cbn [groups]. rewrite <- !Nat.div_mod_eq. reflexivity.
    + unfold two_digits. cbn [app].
      repeat constructor; apply digit_value_char;
        first [ apply Nat.Div0.div_lt_upper_bound; lia
              | apply Nat.mod_upper_bound; lia ].
Qed.

Lemma progress_time_marker_witness :
  progress_time Run.unicode_zeros
    (Run.text "size=    1024kB " ++ time_marker 0 1 5 50
     ++ Run.text " bitrate= 128.0kbits/s")
  = Some (0, 1, 5, 50)%nat /\
  progress_time Run.unicode_zeros
    (Run.text "size=    1024kB "
     ++ marker [0x660; 0x660; 0x660; 0x661; 0x660; 0x665; 0x665; 0x660]%N
     ++ Run.text " bitrate= 128.0kbits/s")
  = Some (0, 1, 5, 50)%nat.
Proof.
  split.
  - exact (proj1 (proj2 (proj2 (progress_time_marker Run.unicode_zeros)))
             (Run.text "size=    1024kB ") (Run.text " bitrate= 128.0kbits/s")
             0 1 5 50 ltac:(lia) ltac:(lia) ltac:(lia) ltac:(lia) eq_refl)%nat.
  - exact (proj1 (proj2 (progress_time_marker Run.unicode_zeros))
             (Run.text "size=    1024kB ") (Run.text " bitrate= 128.0kbits/s")
             [0x660; 0x660; 0x660; 0x661; 0x660; 0x665; 0x665; 0x660]%N
             [0; 0; 0; 1; 0; 5; 5; 0]%nat
             ltac:(repeat constructor) eq_refl eq_refl).
Defined.
